(** * gridappsd-alarms: the alarm correlation callback and the index build

    A shallow embedding of [src/gridappsd-alarms.py]:
    - [SimulationSubscriber.on_message] (lines 100-146), the callback that
      records switching commands and turns measurement changes into alarms;
    - the part of [_main] (lines 204-265) that builds [equipment_dict],
      [measurement_dict], [meas_eq_map] and [eq_phases_map].

    Python dictionaries that are only read, written and deleted by key are
    [gmap]s; dictionaries that the code iterates over are insertion-ordered
    association lists ([PyDict]).  A failed subscript is a [KeyError]; the
    attributes of [self] mutated before the fault keep their new values. *)

From Stdlib Require Import ZArith String Ascii List Lia.
From stdpp Require Import base gmap strings list.

Open Scope string_scope.
Open Scope list_scope.

(** ** Python values carried by the JSON payloads

    The scalars that [json.loads] yields, floating-point numbers apart. *)

Inductive pyval : Type :=
  | VNone
  | VBool (b : bool)
  | VInt (z : Z)
  | VStr (s : string).

(** [bool] is a subclass of [int] in Python: [True == 1] and [False == 0]. *)
Definition as_int (v : pyval) : option Z :=
  match v with
  | VInt z => Some z
  | VBool true => Some 1%Z
  | VBool false => Some 0%Z
  | _ => None
  end.

(** Python's [==] on these values. *)
Definition py_eq (a b : pyval) : bool :=
  match as_int a, as_int b with
  | Some x, Some y => Z.eqb x y
  | _, _ =>
      match a, b with
      | VNone, VNone => true
      | VStr s, VStr t => String.eqb s t
      | _, _ => false
      end
  end.

(** Python's [needle in hay] on strings. *)
Fixpoint contains (needle hay : string) : bool :=
  String.prefix needle hay ||
  match hay with
  | EmptyString => false
  | String _ hay' => contains needle hay'
  end.

(** ** Insertion-ordered dictionaries with string keys *)

Module PyDict.

Definition t (V : Type) : Type := list (string * V).

Definition empty {V} : t V := [].

(** [d[k] = v]: an existing key keeps its position, a new key goes last. *)
Fixpoint set {V} (k : string) (v : V) (d : t V) : t V :=
  match d with
  | [] => [(k, v)]
  | (k', v') :: d' =>
      if String.eqb k k' then (k, v) :: d' else (k', v') :: set k v d'
  end.

Fixpoint get {V} (k : string) (d : t V) : option V :=
  match d with
  | [] => None
  | (k', v') :: d' => if String.eqb k k' then Some v' else get k d'
  end.

Definition keys {V} (d : t V) : list string := map fst d.

(** [k in d] *)
Definition mem {V} (k : string) (d : t V) : bool :=
  existsb (String.eqb k) (keys d).

End PyDict.

(** ** Records of the bulk queries and of the two kinds of message *)

(** An entry of a [QUERY_OBJECT_DICT] response: its ["id"] and its
    ["IdentifiedObject.name"]. *)
Record equipment : Type := {
  eq_id : string;
  eq_name : string
}.

(** An entry of a [QUERY_OBJECT_MEASUREMENTS] response. *)
Record measurement : Type := {
  meas_measid : string;
  meas_type : string;
  meas_eqid : string;
  meas_phases : string
}.

(** One element of [forward_differences], with the three keys that lines
    117-121 subscript.  An element that lacks one of them makes the real
    handler raise [KeyError] at that subscript; such elements, like headers
    without ["GOSS_SUBJECT"], equipment records without
    ["IdentifiedObject.name"] and output bodies without ["timestamp"], are
    not represented here, so what is proved below of a message that is
    handled to the end holds of messages that carry these keys. *)
Record diff_item : Type := {
  item_object : string;
  item_attribute : string;
  item_value : pyval
}.

Record headers : Type := {
  destination : string;
  GOSS_SUBJECT : string
}.

(** [message["message"]] of a simulation output. *)
Record sim_output : Type := {
  out_timestamp : Z;
  out_measurements : gmap string pyval
}.

(** The message body: [msg_input] is
    [message["input"]["message"]["forward_differences"]] and [msg_message]
    is [message["message"]]; [None] when the key is absent. *)
Record message : Type := {
  msg_input : option (list diff_item);
  msg_message : option sim_output
}.

(** The dictionary [input] built at lines 119-124.  [cmd_ref] is the identity
    of the dictionary object (what Python's [id] would tell apart): two
    commands with equal fields are still two instances. *)
Record command : Type := {
  cmd_ref : nat;
  equipment_mrid : string;
  value : string;
  created_by : string;
  equipment_name : string;
  phases : string
}.

(** The same dictionary after line 141 has added ["timestamp"] to it. *)
Record alarm : Type := {
  alarm_command : command;
  timestamp : Z
}.

Definition alarm_ref (a : alarm) : nat := cmd_ref (alarm_command a).

(** The attributes of [self] that [on_message] only reads. *)
Record index : Type := {
  equipment_dict : PyDict.t equipment;
  measurement_dict : PyDict.t measurement;
  meas_eq_map : gmap string string;
  eq_phases_map : gmap string string
}.

(** The attributes of [self] that [on_message] mutates, the allocation
    counter that numbers the [input] dictionaries, and the payloads handed
    to [self._gapps.send], oldest first. *)
Record state : Type := {
  measurement_value : gmap string pyval;
  input_map : gmap string command;
  next_ref : nat;
  sent : list (list alarm)
}.

(** The state left by [__init__]. *)
Definition init : state :=
  {| measurement_value := ∅; input_map := ∅; next_ref := 0; sent := [] |}.

(** ** Computations that mutate [self] and may raise *)

Inductive exn : Type :=
  | KeyError (key : string).

Inductive outcome (A : Type) : Type :=
  | Ret (a : A)
  | Raise (e : exn).
Arguments Ret {A} a.
Arguments Raise {A} e.

Definition M (A : Type) : Type := state -> state * outcome A.

Definition ret {A} (a : A) : M A := fun st => (st, Ret a).

Definition raise {A} (e : exn) : M A := fun st => (st, Raise e).

Definition bind {A B} (c : M A) (k : A -> M B) : M B :=
  fun st =>
    match c st with
    | (st', Ret a) => k a st'
    | (st', Raise e) => (st', Raise e)
    end.

Declare Scope py_scope.
Delimit Scope py_scope with py.
Notation "x <- c ;; k" := (bind c (fun x => k))
  (at level 100, c at next level, right associativity) : py_scope.
Notation "c ;; k" := (bind c (fun _ => k))
  (at level 100, right associativity) : py_scope.
Open Scope py_scope.

Definition gets {A} (f : state -> A) : M A := fun st => (st, Ret (f st)).

Definition modify (f : state -> state) : M unit := fun st => (f st, Ret tt).

(** A subscript [d[k]]: the value, or [KeyError(k)]. *)
Definition subscript {A} (o : option A) (k : string) : M A :=
  match o with
  | Some a => ret a
  | None => raise (KeyError k)
  end.

(** [for x in l: body(x)] *)
Fixpoint for_each {B} (l : list B) (body : B -> M unit) : M unit :=
  match l with
  | [] => ret tt
  | x :: l' => body x ;; for_each l' body
  end.

(** A [for] loop that threads a local variable through its body. *)
Fixpoint for_fold {A B} (l : list B) (body : A -> B -> M A) (a : A) : M A :=
  match l with
  | [] => ret a
  | x :: l' => a' <- body a x ;; for_fold l' body a'
  end.

(** ** [SimulationSubscriber.on_message] *)

(** [self.measurement_value[m] = v] *)
Definition with_measurement_value (m : string) (v : pyval) (st : state)
    : state :=
  {| measurement_value := <[m := v]> (measurement_value st);
     input_map := input_map st;
     next_ref := next_ref st;
     sent := sent st |}.

(** [self.input_map[k] = c] *)
Definition with_input (k : string) (c : command) (st : state) : state :=
  {| measurement_value := measurement_value st;
     input_map := <[k := c]> (input_map st);
     next_ref := next_ref st;
     sent := sent st |}.

(** [del self.input_map[k]] *)
Definition without_input (k : string) (st : state) : state :=
  {| measurement_value := measurement_value st;
     input_map := delete k (input_map st);
     next_ref := next_ref st;
     sent := sent st |}.

(** [self._gapps.send(self._publish_to_topic, json.dumps(alarm_list))] *)
Definition with_sent (alarm_list : list alarm) (st : state) : state :=
  {| measurement_value := measurement_value st;
     input_map := input_map st;
     next_ref := next_ref st;
     sent := sent st ++ [alarm_list] |}.

Definition set_measurement_value (m : string) (v : pyval) : M unit :=
  modify (with_measurement_value m v).

Definition set_input_map (k : string) (c : command) : M unit :=
  modify (with_input k c).

Definition del_input_map (k : string) : M unit :=
  modify (without_input k).

Definition send (alarm_list : list alarm) : M unit :=
  modify (with_sent alarm_list).

(** [input = {}]: a fresh dictionary object. *)
Definition new_dict : M nat :=
  fun st =>
    ({| measurement_value := measurement_value st;
        input_map := input_map st;
        next_ref := S (next_ref st);
        sent := sent st |}, Ret (next_ref st)).

Definition tracked_attributes : list string :=
  ["ShuntCompensator.sections"; "Switch.open"].

(** [x in l] for a list of strings. *)
Definition in_list (x : string) (l : list string) : bool :=
  existsb (String.eqb x) l.

(** Lines 117-125, the body of the loop over [forward_differences]. *)
Definition process_item (idx : index) (h : headers) (item : diff_item)
    : M unit :=
  if PyDict.mem (item_object item) (equipment_dict idx) then
    if in_list (item_attribute item) tracked_attributes then
      r <- new_dict ;;
      let v := if py_eq (item_value item) (VInt 1) then "Open" else "Close" in
      let by_ := GOSS_SUBJECT h in
      e <- subscript (PyDict.get (item_object item) (equipment_dict idx))
                     (item_object item) ;;
      p <- subscript (eq_phases_map idx !! item_object item)
                     (item_object item) ;;
      set_input_map (item_object item)
        {| cmd_ref := r;
           equipment_mrid := item_object item;
           value := v;
           created_by := by_;
           equipment_name := eq_name e;
           phases := p |}
    else ret tt
  else ret tt.

(** [message["message"]["measurements"][m]["value"]] *)
Definition event_value (msg : message) (m : string) : M pyval :=
  o <- subscript (msg_message msg) "message" ;;
  subscript (out_measurements o !! m) m.

(** [message["message"]["timestamp"]] *)
Definition event_timestamp (msg : message) : M Z :=
  o <- subscript (msg_message msg) "message" ;;
  ret (out_timestamp o).

(** Lines 131-142, the body of the loop over [measurement_dict]; the local
    [alarm_list] goes in and comes out. *)
Definition process_measurement (idx : index) (msg : message)
    (alarm_list : list alarm) (m : string) : M (list alarm) :=
  snapshot <- gets (fun st => measurement_value st !! m) ;;
  match snapshot with
  | None =>
      v <- event_value msg m ;;
      set_measurement_value m v ;;
      ret alarm_list
  | Some old =>
      v <- event_value msg m ;;
      if negb (py_eq old v) then
        v' <- event_value msg m ;;
        set_measurement_value m v' ;;
        eq <- subscript (meas_eq_map idx !! m) m ;;
        pending <- gets (fun st => input_map st !! eq) ;;
        match pending with
        | Some c =>
            del_input_map eq ;;
            ts <- event_timestamp msg ;;
            ret (alarm_list ++ [{| alarm_command := c; timestamp := ts |}])
        | None => ret alarm_list
        end
      else ret alarm_list
  end.

(** Lines 115-125. *)
Definition handle_input (idx : index) (h : headers) (msg : message) : M unit :=
  if contains "input" (destination h) then
    items <- subscript (msg_input msg) "input" ;;
    for_each items (process_item idx h)
  else ret tt.

(** Lines 128-142. *)
Definition handle_output (idx : index) (h : headers) (msg : message)
    : M (list alarm) :=
  if contains "output" (destination h) then
    for_fold (PyDict.keys (measurement_dict idx))
      (process_measurement idx msg) []
  else ret [].

(** Lines 144-146. *)
Definition publish (alarm_list : list alarm) : M unit :=
  if negb (Nat.eqb (length alarm_list) 0) then send alarm_list else ret tt.

Definition on_message (idx : index) (h : headers) (msg : message) : M unit :=
  handle_input idx h msg ;;
  alarm_list <- handle_output idx h msg ;;
  publish alarm_list.

(** The message bus delivers the events one at a time to the same
    subscriber object; what an interrupted call had already written to
    [self] is still there for the next call. *)
Definition event : Type := headers * message.

Definition deliver (idx : index) (st : state) (ev : event) : state :=
  fst (on_message idx (fst ev) (snd ev) st).

Definition run (idx : index) (evs : list event) (st : state) : state :=
  fold_left (deliver idx) evs st.

(** ** The index build of [_main] *)

(** Lines 215-216 and 226-227: [equipment_dict[x["id"]] = x]. *)
Definition add_equipment (response : list equipment)
    (d : PyDict.t equipment) : PyDict.t equipment :=
  fold_left (fun d c => PyDict.set (eq_id c) c d) response d.

(** Lines 239-241 and 250-252: only the ["Pos"] measurements are kept. *)
Definition add_measurements (response : list measurement)
    (d : PyDict.t measurement) : PyDict.t measurement :=
  fold_left
    (fun d m =>
       if String.eqb (meas_type m) "Pos" then PyDict.set (meas_measid m) m d
       else d)
    response d.

(** Lines 260-265, the body of the inner loop; the pair is
    [(meas_eq_map, eq_phases_map)] and [+] on the phases is the
    concatenation of two strings. *)
Definition associate (m : string) (rec : measurement)
    (maps : gmap string string * gmap string string) (e : string)
    : gmap string string * gmap string string :=
  if String.eqb e (meas_eqid rec) then
    let ph :=
      match maps.2 !! e with
      | Some p => <[e := String.append p (meas_phases rec)]> (maps.2)
      | None => <[e := meas_phases rec]> (maps.2)
      end in
    (<[m := e]> (maps.1), ph)
  else maps.

(** Lines 256-265.  The outer loop walks the keys of [measurement_dict] and
    reads [measurement_dict[measurement]], which is the entry paired with
    the key. *)
Definition build_maps (eqs : PyDict.t equipment) (ms : PyDict.t measurement)
    : gmap string string * gmap string string :=
  fold_left
    (fun maps kv =>
       fold_left (associate (fst kv) (snd kv)) (PyDict.keys eqs) maps)
    ms (∅, ∅).

(** Lines 204-265, from the four query responses. *)
Definition build_index (capacitors switches : list equipment)
    (capacitor_meas switch_meas : list measurement) : index :=
  let eqs := add_equipment switches (add_equipment capacitors PyDict.empty) in
  let ms := add_measurements switch_meas
              (add_measurements capacitor_meas PyDict.empty) in
  let maps := build_maps eqs ms in
  {| equipment_dict := eqs;
     measurement_dict := ms;
     meas_eq_map := maps.1;
     eq_phases_map := maps.2 |}.

(** ** A small feeder used by the examples *)

Module Example.

Definition SW1 : equipment := {| eq_id := "SW1"; eq_name := "sw_1" |}.

Definition mk_pos (measid eqid ph : string) : measurement :=
  {| meas_measid := measid; meas_type := "Pos";
     meas_eqid := eqid; meas_phases := ph |}.

Definition idx : index := build_index [] [SW1] [] [mk_pos "M1" "SW1" "A"].

Definition input_headers : headers :=
  {| destination := "/topic/goss.gridappsd.simulation.input.1234";
     GOSS_SUBJECT := "sim-control" |}.

Definition output_headers : headers :=
  {| destination := "/topic/goss.gridappsd.simulation.output.1234";
     GOSS_SUBJECT := "simulator" |}.

Definition command_event (items : list diff_item) : event :=
  (input_headers, {| msg_input := Some items; msg_message := None |}).

Definition output_event (ts : Z) (ms : list (string * pyval)) : event :=
  (output_headers,
   {| msg_input := None;
      msg_message :=
        Some {| out_timestamp := ts; out_measurements := list_to_map ms |} |}).

Definition open_SW1 : diff_item :=
  {| item_object := "SW1"; item_attribute := "Switch.open";
     item_value := VInt 1 |}.

End Example.

(** ** Vocabulary of the properties *)

(** An item that passes both tests of lines 117-118. *)
Definition tracked (idx : index) (item : diff_item) : Prop :=
  item_object item ∈ PyDict.keys (equipment_dict idx) /\
  (item_attribute item = "ShuntCompensator.sections" \/
   item_attribute item = "Switch.open").

(** The value an output message reports for [m], when it has one. *)
Definition reported (msg : message) (m : string) : option pyval :=
  match msg_message msg with
  | Some o => out_measurements o !! m
  | None => None
  end.

(** The six ways through the body of the loop, lines 131-142. *)
Inductive meas_step (idx : index) (msg : message) (al : list alarm) (m : string)
    (st : state) : state -> outcome (list alarm) -> Prop :=
  | step_missing k :
      reported msg m = None ->
      meas_step idx msg al m st st (Raise (KeyError k))
  | step_first v :
      reported msg m = Some v ->
      measurement_value st !! m = None ->
      meas_step idx msg al m st (with_measurement_value m v st) (Ret al)
  | step_same v old :
      reported msg m = Some v ->
      measurement_value st !! m = Some old ->
      py_eq old v = true ->
      meas_step idx msg al m st st (Ret al)
  | step_unmapped v old :
      reported msg m = Some v ->
      measurement_value st !! m = Some old ->
      py_eq old v = false ->
      meas_eq_map idx !! m = None ->
      meas_step idx msg al m st (with_measurement_value m v st)
        (Raise (KeyError m))
  | step_unprompted v old e :
      reported msg m = Some v ->
      measurement_value st !! m = Some old ->
      py_eq old v = false ->
      meas_eq_map idx !! m = Some e ->
      input_map st !! e = None ->
      meas_step idx msg al m st (with_measurement_value m v st) (Ret al)
  | step_alarm v old e c o :
      reported msg m = Some v ->
      measurement_value st !! m = Some old ->
      py_eq old v = false ->
      meas_eq_map idx !! m = Some e ->
      input_map st !! e = Some c ->
      msg_message msg = Some o ->
      meas_step idx msg al m st
        (without_input e (with_measurement_value m v st))
        (Ret (al ++ [{| alarm_command := c; timestamp := out_timestamp o |}])).

(** Every alarm handed to [send] so far. *)
Definition published (st : state) : list alarm := concat (sent st).

(** The instances that have left the table: those in [gone], known to be out
    of it for good, those already sent, and those waiting in the local
    [alarm_list]. *)
Definition refs_out (gone : list nat) (st : state) (al : list alarm)
    : list nat :=
  gone ++ map alarm_ref (published st ++ al).

(** Every instance is either in one entry of the table or out of it, and was
    allocated before. *)
Record consistent (gone : list nat) (st : state) (al : list alarm) : Prop := {
  table_below : forall k c,
    input_map st !! k = Some c -> cmd_ref c < next_ref st;
  table_inj : forall k k' c c',
    input_map st !! k = Some c -> input_map st !! k' = Some c' ->
    cmd_ref c = cmd_ref c' -> k = k';
  out_nodup : NoDup (refs_out gone st al);
  out_below : forall r, r ∈ refs_out gone st al -> r < next_ref st;
  out_dead : forall r k c,
    r ∈ refs_out gone st al -> input_map st !! k = Some c -> cmd_ref c <> r
}.

(** What the measurement loop carries in [alarm_list] after one pass through
    its body. *)
Definition local_after (o : outcome (list alarm)) (al : list alarm)
    : list alarm :=
  match o with
  | Ret al' => al'
  | Raise _ => al
  end.

(** The executions of the subscriber, cut where the claims need them: one
    pass through the body of the command loop, or one whole call. *)
Inductive step : Type :=
  | Item (h : headers) (item : diff_item)
  | Call (ev : event).

Definition do_step (idx : index) (st : state) (s : step) : state :=
  match s with
  | Item h item => fst (process_item idx h item st)
  | Call ev => deliver idx st ev
  end.

Definition steps (idx : index) (l : list step) (st : state) : state :=
  fold_left (do_step idx) l st.

(** The kept measurements whose ["eqid"] is [e], in the order of
    [measurement_dict]; none when [e] is not in [equipment_dict]. *)
Definition associated (eqs : PyDict.t equipment) (ms : PyDict.t measurement)
    (e : string) : list measurement :=
  if PyDict.mem e eqs then
    List.filter (fun rec => String.eqb (meas_eqid rec) e) (map snd ms)
  else [].

Definition concat_phases (l : list measurement) : string :=
  fold_right (fun rec acc => String.append (meas_phases rec) acc)
    EmptyString l.

(** What lines 261-264 leave under an equipment after these measurements. *)
Definition recorded (l : list measurement) : option string :=
  match l with
  | [] => None
  | _ :: _ => Some (concat_phases l)
  end.

(** The reading of the phase value as a set of phase letters. *)
Definition phase_letters (p : string) : list ascii := list_ascii_of_string p.

(** The phase value of every equipment is the duplicate-free union of the
    phases of its measurements. *)
Definition phases_are_union (idx : index) : Prop :=
  forall e p,
    eq_phases_map idx !! e = Some p ->
    NoDup (phase_letters p) /\
    (forall ch,
        ch ∈ phase_letters p <->
        exists rec,
          rec ∈ associated (equipment_dict idx) (measurement_dict idx) e /\
          ch ∈ phase_letters (meas_phases rec)).

(** ** Two more feeders *)

Module Unmapped.

(** ["M2"] is a position measurement of ["SW9"], which neither
    [QUERY_OBJECT_DICT] response lists. *)
Definition idx : index :=
  build_index [] [Example.SW1] []
    [Example.mk_pos "M1" "SW1" "A"; Example.mk_pos "M2" "SW9" "B"].

Definition baseline : event :=
  Example.output_event 999 [("M1", VInt 0); ("M2", VInt 0)].

Definition change : event :=
  Example.output_event 1000 [("M1", VInt 1); ("M2", VInt 1)].

Definition before : state :=
  run idx [Example.command_event [Example.open_SW1]; baseline] init.

End Unmapped.

Module SamePhase.

(** Two position measurements of ["SW1"], both on phase A. *)
Definition idx : index :=
  build_index [] [Example.SW1] []
    [Example.mk_pos "M1" "SW1" "A"; Example.mk_pos "M2" "SW1" "A"].

End SamePhase.

(** ** Vocabulary of the further properties *)

(** The record that a response list leaves under the id [k]: its last one
    with that id. *)
Fixpoint last_equipment (k : string) (l : list equipment) : option equipment :=
  match l with
  | [] => None
  | c :: l' =>
      match last_equipment k l' with
      | Some c' => Some c'
      | None => if String.eqb (eq_id c) k then Some c else None
      end
  end.

(** The same for the measurements that lines 240 and 251 keep. *)
Fixpoint last_position (k : string) (l : list measurement)
    : option measurement :=
  match l with
  | [] => None
  | m :: l' =>
      match last_position k l' with
      | Some m' => Some m'
      | None =>
          if String.eqb (meas_type m) "Pos" && String.eqb (meas_measid m) k
          then Some m else None
      end
  end.

(** Both tests of lines 117-118, as the code evaluates them. *)
Definition accepts (idx : index) (item : diff_item) : bool :=
  PyDict.mem (item_object item) (equipment_dict idx)
  && in_list (item_attribute item) tracked_attributes.

(** The last item of a batch that passes both tests and targets [e]. *)
Fixpoint last_command (idx : index) (items : list diff_item) (e : string)
    : option diff_item :=
  match items with
  | [] => None
  | it :: rest =>
      match last_command idx rest e with
      | Some x => Some x
      | None =>
          if accepts idx it && String.eqb (item_object it) e
          then Some it else None
      end
  end.

(** The test of line 134 in state [st]: [m] has a snapshot and the message
    reports a value that is [!=] to it. *)
Definition changed (st : state) (msg : message) (m : string) : bool :=
  match measurement_value st !! m, reported msg m with
  | Some old, Some v => negb (py_eq old v)
  | _, _ => false
  end.

(** Some measurement of [l] that [meas_eq_map] sends to [e] has changed. *)
Definition triggered (idx : index) (st : state) (msg : message)
    (l : list string) (e : string) : bool :=
  existsb
    (fun m => changed st msg m && bool_decide (meas_eq_map idx !! m = Some e))
    l.

(** The snapshot that lines 131-136 leave for a scanned measurement: the
    reported value when there was none or when it has changed, the old one
    otherwise. *)
Definition next_snapshot (st : state) (msg : message) (m : string)
    : option pyval :=
  match measurement_value st !! m with
  | None => reported msg m
  | Some old => if changed st msg m then reported msg m else Some old
  end.

(** The alarm of a command that was pending in [st] for an equipment one of
    whose measurements in [l] has changed, stamped with the message's time. *)
Definition resolved (idx : index) (st : state) (msg : message)
    (l : list string) (a : alarm) : Prop :=
  exists e c o,
    input_map st !! e = Some c /\
    triggered idx st msg l e = true /\
    msg_message msg = Some o /\
    a = {| alarm_command := c; timestamp := out_timestamp o |}.

(** A command whose fields are what lines 120-124 read from the index. *)
Definition from_directory (idx : index) (c : command) : Prop :=
  (exists rec,
      PyDict.get (equipment_mrid c) (equipment_dict idx) = Some rec /\
      equipment_name c = eq_name rec) /\
  eq_phases_map idx !! equipment_mrid c = Some (phases c) /\
  (value c = "Open" \/ value c = "Close").

Definition alarm_mrid (a : alarm) : string := equipment_mrid (alarm_command a).

(** What holds of a batch of alarms taken from the table during one scan. *)
Definition batch_ok (idx : index) (b : list alarm) : Prop :=
  NoDup (map alarm_mrid b) /\
  (forall a, a ∈ b -> from_directory idx (alarm_command a)) /\
  (exists ts, forall a, a ∈ b -> timestamp a = ts).

(** What holds of the subscriber between two calls. *)
Record orderly (idx : index) (st : state) : Prop := {
  table_keyed : forall k c,
    input_map st !! k = Some c ->
    equipment_mrid c = k /\ from_directory idx c;
  batches_ok : forall b, b ∈ sent st -> b <> [] /\ batch_ok idx b
}.

(** What holds inside the measurement loop, with its local [alarm_list]. *)
Record scanning (idx : index) (msg : message) (st : state)
    (al : list alarm) : Prop := {
  scan_keyed : forall k c,
    input_map st !! k = Some c ->
    equipment_mrid c = k /\ from_directory idx c;
  scan_nodup : NoDup (map alarm_mrid al);
  scan_taken : forall a, a ∈ al ->
    input_map st !! alarm_mrid a = None /\
    from_directory idx (alarm_command a) /\
    exists o, msg_message msg = Some o /\ timestamp a = out_timestamp o
}.

(** A capacitor bank with no position measurement next to the switch. *)
Module Bare.

Definition CAP1 : equipment := {| eq_id := "CAP1"; eq_name := "cap_1" |}.

Definition idx : index :=
  build_index [CAP1] [Example.SW1] [] [Example.mk_pos "M1" "SW1" "A"].

Definition switch_CAP1 : diff_item :=
  {| item_object := "CAP1"; item_attribute := "ShuntCompensator.sections";
     item_value := VInt 0 |}.

End Bare.

(** ** Vocabulary of the revised properties *)

(** The alarms that the measurement loop has appended to [alarm_list] when
    it stops, at the end of the keys or at the subscript that raises. *)
Fixpoint scan_produced (idx : index) (msg : message) (l : list string)
    (al : list alarm) (st : state) : list alarm :=
  match l with
  | [] => al
  | m :: l' =>
      match process_measurement idx msg al m st with
      | (st1, Ret al1) => scan_produced idx msg l' al1 st1
      | (_, Raise _) => al
      end
  end.

(** The alarms that one call of [on_message] has produced by the time it
    stops. *)
Definition produced (idx : index) (h : headers) (msg : message) (st : state)
    : list alarm :=
  match handle_input idx h msg st with
  | (st1, Ret _) =>
      if contains "output" (destination h)
      then scan_produced idx msg (PyDict.keys (measurement_dict idx)) [] st1
      else []
  | (_, Raise _) => []
  end.

(** One call sends what it has produced: the whole list in one payload when
    it is not empty, nothing when it is. *)
Definition sends_what_it_produced (idx : index) (h : headers) (msg : message)
    (st : state) : Prop :=
  sent (fst (on_message idx h msg st)) =
  sent st ++ match produced idx h msg st with
             | [] => []
             | _ :: _ => [produced idx h msg st]
             end.

(** A switch with a position measurement on each of two phases, a command
    pending, both snapshots taken, and an output message that reports the
    first measurement only. *)
Module Partial.

Definition idx : index :=
  build_index [] [Example.SW1] []
    [Example.mk_pos "M1" "SW1" "A"; Example.mk_pos "M2" "SW1" "B"].

Definition before : state :=
  run idx
    [Example.command_event [Example.open_SW1];
     Example.output_event 999 [("M1", VInt 0); ("M2", VInt 0)]] init.

Definition change : event := Example.output_event 1000 [("M1", VInt 1)].

End Partial.

(** Two command messages for the capacitor bank of [Bare], which has no
    position measurement. *)
Module Lost.

Definition first : event := Example.command_event [Bare.switch_CAP1].

Definition second : event :=
  Example.command_event
    [{| item_object := "CAP1"; item_attribute := "ShuntCompensator.sections";
        item_value := VInt 1 |}].

End Lost.

(** * Properties *)

(** ** Values, strings and dictionaries *)

Lemma py_eq_refl (v : pyval) : py_eq v v = true.
Proof.
  destruct v as [| [] | z | s]; unfold py_eq; simpl;
    auto using Z.eqb_refl, String.eqb_refl.
Qed.

Lemma py_eq_int_1 (n : Z) : py_eq (VInt n) (VInt 1) = true <-> n = 1%Z.
Proof. unfold py_eq; simpl. apply Z.eqb_eq. Qed.

Lemma in_list_spec (x : string) (l : list string) :
  in_list x l = true <-> x ∈ l.
Proof.
  unfold in_list. rewrite existsb_exists, list_elem_of_In. split.
  - intros (y & Hy & E). apply String.eqb_eq in E. now subst.
  - intros H. exists x. split; [assumption | apply String.eqb_refl].
Qed.

Lemma in_list_false (x : string) (l : list string) :
  in_list x l = false <-> x ∉ l.
Proof.
  rewrite <- in_list_spec. destruct (in_list x l); split; congruence.
Qed.

Lemma tracked_attributes_spec (a : string) :
  in_list a tracked_attributes = true <->
  a = "ShuntCompensator.sections" \/ a = "Switch.open".
Proof.
  rewrite in_list_spec. unfold tracked_attributes.
  rewrite !elem_of_cons, elem_of_nil. tauto.
Qed.

Module PyDictFacts.
Import PyDict.

Lemma mem_spec {V} (k : string) (d : t V) : mem k d = true <-> k ∈ keys d.
Proof. apply in_list_spec. Qed.

Lemma mem_false {V} (k : string) (d : t V) : mem k d = false <-> k ∉ keys d.
Proof. apply in_list_false. Qed.

Lemma get_None {V} (k : string) (d : t V) : get k d = None <-> k ∉ keys d.
Proof.
  induction d as [| [k' v'] d IH]; simpl.
  - split; [intros _; apply not_elem_of_nil | reflexivity].
  - rewrite not_elem_of_cons. destruct (String.eqb_spec k k') as [-> | N].
    + split; [discriminate | intros [C _]; now contradiction C].
    + rewrite IH. tauto.
Qed.

Lemma get_is_Some {V} (k : string) (d : t V) :
  k ∈ keys d -> exists v, get k d = Some v.
Proof.
  intros H. destruct (get k d) as [v |] eqn:E; [eauto |].
  apply get_None in E. contradiction.
Qed.

Lemma keys_set {V} (k : string) (v : V) (d : t V) :
  keys (set k v d) = if mem k d then keys d else keys d ++ [k].
Proof.
  induction d as [| [k' v'] d IH]; simpl; [reflexivity |].
  unfold mem in *; simpl. destruct (String.eqb_spec k k') as [-> | N]; simpl.
  - reflexivity.
  - unfold keys in *. rewrite IH. now destruct (existsb _ _).
Qed.

Lemma NoDup_keys_set {V} (k : string) (v : V) (d : t V) :
  NoDup (keys d) -> NoDup (keys (set k v d)).
Proof.
  intros H. rewrite keys_set. destruct (mem k d) eqn:E; [assumption |].
  apply mem_false in E. apply NoDup_app. split_and!; [assumption | | ].
  - intros x Hx Hk. apply list_elem_of_singleton in Hk. now subst.
  - apply NoDup_singleton.
Qed.

End PyDictFacts.

(** ** Stepping through the computations *)

Ltac step_M :=
  unfold on_message, handle_input, handle_output, publish, process_item,
    process_measurement, event_value, event_timestamp, set_measurement_value,
    set_input_map, del_input_map, new_dict, send, subscript, gets, modify,
    bind, ret, raise in *;
  simpl in *.

(** ** The command loop *)

Lemma tracked_tests (idx : index) (item : diff_item) :
  tracked idx item ->
  PyDict.mem (item_object item) (equipment_dict idx) = true /\
  in_list (item_attribute item) tracked_attributes = true.
Proof.
  intros [H1 H2]. split.
  - now apply PyDictFacts.mem_spec.
  - now apply tracked_attributes_spec.
Qed.

(** What a tracked item that does not raise leaves behind. *)
Lemma process_item_tracked (idx : index) (h : headers) (item : diff_item)
    (st st' : state) :
  tracked idx item ->
  process_item idx h item st = (st', Ret tt) ->
  exists e p,
    PyDict.get (item_object item) (equipment_dict idx) = Some e /\
    eq_phases_map idx !! item_object item = Some p /\
    st' = with_input (item_object item)
            {| cmd_ref := next_ref st;
               equipment_mrid := item_object item;
               value := if py_eq (item_value item) (VInt 1)
                        then "Open" else "Close";
               created_by := GOSS_SUBJECT h;
               equipment_name := eq_name e;
               phases := p |}
            (fst (new_dict st)).
Proof.
  intros T H. destruct (tracked_tests _ _ T) as [H1 H2].
  unfold process_item in H. rewrite H1, H2 in H. step_M.
  destruct (PyDict.get _ _) as [e |]; [| discriminate].
  destruct (eq_phases_map idx !! _) as [p |]; [| discriminate].
  exists e, p. split_and!; try reflexivity. simpl in H. congruence.
Qed.

(** A tracked item is stored as soon as its equipment has phases on record. *)
Lemma process_item_accepts (idx : index) (h : headers) (item : diff_item)
    (st : state) (p : string) :
  tracked idx item ->
  eq_phases_map idx !! item_object item = Some p ->
  exists st', process_item idx h item st = (st', Ret tt).
Proof.
  intros T Hp. destruct (tracked_tests _ _ T) as [H1 H2].
  destruct (PyDictFacts.get_is_Some _ _ (proj1 T)) as [e He].
  unfold process_item. rewrite H1, H2. step_M. rewrite He, Hp. eauto.
Qed.

(** C6: an item whose object is not a key of [equipment_dict], or whose
    attribute is neither ["ShuntCompensator.sections"] nor ["Switch.open"],
    is skipped: the loop body returns with every attribute of [self], the
    pending commands among them, as it found it. *)
Theorem filter_property (idx : index) (h : headers) (item : diff_item)
    (st : state) :
  item_object item ∉ PyDict.keys (equipment_dict idx) \/
  (item_attribute item <> "ShuntCompensator.sections" /\
   item_attribute item <> "Switch.open") ->
  process_item idx h item st = (st, Ret tt) /\
  input_map (fst (process_item idx h item st)) = input_map st.
Proof.
  intros H.
  assert (E : process_item idx h item st = (st, Ret tt)).
  { unfold process_item. destruct H as [H | [H1 H2]].
    - apply PyDictFacts.mem_false in H. now rewrite H.
    - destruct (PyDict.mem _ _); [| reflexivity].
      destruct (in_list _ _) eqn:A; [| reflexivity].
      apply tracked_attributes_spec in A. tauto. }
  now rewrite E.
Qed.

Lemma filter_property_witness :
  process_item Example.idx Example.input_headers
    {| item_object := "SW1"; item_attribute := "Switch.normalOpen";
       item_value := VInt 1 |}
    (deliver Example.idx init (Example.command_event [Example.open_SW1]))
  = (deliver Example.idx init (Example.command_event [Example.open_SW1]),
     Ret tt).
Proof.
  apply (filter_property Example.idx Example.input_headers
           {| item_object := "SW1"; item_attribute := "Switch.normalOpen";
              item_value := VInt 1 |}
           (deliver Example.idx init (Example.command_event [Example.open_SW1]))).
  right. split; discriminate.
Defined.

(** C8: the command stored for a tracked item that is accepted has value
    ["Open"] exactly when the item's value [== 1], and ["Close"] otherwise;
    for an integer value that is: exactly when it is 1. *)
Theorem normalized_value (idx : index) (h : headers) (item : diff_item)
    (st st' : state) :
  tracked idx item ->
  process_item idx h item st = (st', Ret tt) ->
  exists c,
    input_map st' !! item_object item = Some c /\
    value c = (if py_eq (item_value item) (VInt 1) then "Open" else "Close") /\
    (forall n : Z, item_value item = VInt n ->
       (n = 1%Z -> value c = "Open") /\ (n <> 1%Z -> value c = "Close") /\
       (value c = "Open" <-> n = 1%Z)).
Proof.
  intros T H. destruct (process_item_tracked _ _ _ _ _ T H) as (e & p & _ & _ & ->).
  eexists. split; [apply lookup_insert_eq |]. simpl. split; [reflexivity |].
  intros n ->. pose proof (py_eq_int_1 n) as P.
  destruct (py_eq (VInt n) (VInt 1)).
  - assert (n = 1%Z) by now apply P. tauto.
  - assert (n <> 1%Z) by (intros C; apply P in C; discriminate).
    split_and!; [tauto | tauto | split; [discriminate | tauto]].
Qed.

Lemma normalized_value_witness :
  exists c,
    input_map (fst (process_item Example.idx Example.input_headers
                      Example.open_SW1 init)) !! "SW1" = Some c /\
    value c = "Open".
Proof.
  assert (T : tracked Example.idx Example.open_SW1).
  { split; [| right; reflexivity]. vm_compute. apply list_elem_of_here. }
  destruct (normalized_value Example.idx Example.input_headers
              Example.open_SW1 init
              (fst (process_item Example.idx Example.input_headers
                      Example.open_SW1 init)) T eq_refl)
    as (c & Hc & Hv & _).
  exists c. split; [exact Hc | exact Hv].
Defined.

(** ** The measurement loop *)

Lemma process_measurement_spec (idx : index) (msg : message)
    (al : list alarm) (m : string) (st : state) :
  meas_step idx msg al m st
    (fst (process_measurement idx msg al m st))
    (snd (process_measurement idx msg al m st)).
Proof.
  unfold process_measurement, event_value, event_timestamp, bind, gets,
    subscript, ret, raise, set_measurement_value, del_input_map, modify, reported.
  destruct (measurement_value st !! m) as [old |] eqn:S;
    destruct (msg_message msg) as [o |] eqn:O; simpl.
  - destruct (out_measurements o !! m) as [v |] eqn:V; simpl.
    + destruct (py_eq old v) eqn:E; simpl.
      * eapply step_same; unfold reported; rewrite ?O; eauto.
      * destruct (meas_eq_map idx !! m) as [e |] eqn:Q; simpl.
        -- destruct (input_map st !! e) as [c |] eqn:I; simpl.
           ++ eapply step_alarm; unfold reported; rewrite ?O; eauto.
           ++ eapply step_unprompted; unfold reported; rewrite ?O; eauto.
        -- eapply step_unmapped; unfold reported; rewrite ?O; eauto.
    + apply step_missing. unfold reported. now rewrite O.
  - apply step_missing. unfold reported. now rewrite O.
  - destruct (out_measurements o !! m) as [v |] eqn:V; simpl.
    + apply step_first; [unfold reported; now rewrite O | assumption].
    + apply step_missing. unfold reported. now rewrite O.
  - apply step_missing. unfold reported. now rewrite O.
Qed.

Lemma process_measurement_inv (idx : index) (msg : message)
    (al : list alarm) (m : string) (st st' : state) (o : outcome (list alarm)) :
  process_measurement idx msg al m st = (st', o) ->
  meas_step idx msg al m st st' o.
Proof.
  intros H. pose proof (process_measurement_spec idx msg al m st) as P.
  now rewrite H in P.
Qed.

(** One unfolding of each loop. *)
Lemma for_fold_cons {A B} (x : B) (l : list B) (body : A -> B -> M A) (a : A)
    (st : state) :
  for_fold (x :: l) body a st =
  match body a x st with
  | (st1, Ret a1) => for_fold l body a1 st1
  | (st1, Raise e) => (st1, Raise e)
  end.
Proof. reflexivity. Qed.

Lemma for_each_cons {B} (x : B) (l : list B) (body : B -> M unit) (st : state) :
  for_each (x :: l) body st =
  match body x st with
  | (st1, Ret _) => for_each l body st1
  | (st1, Raise e) => (st1, Raise e)
  end.
Proof. reflexivity. Qed.

(** The loop body writes the snapshot of its own measurement only. *)
Lemma meas_step_other (idx : index) (msg : message) (al : list alarm)
    (m k : string) (st st' : state) (o : outcome (list alarm)) :
  meas_step idx msg al m st st' o -> k <> m ->
  measurement_value st' !! k = measurement_value st !! k.
Proof.
  intros H N. destruct H; simpl; try reflexivity;
    now rewrite lookup_insert_ne by congruence.
Qed.

(** A snapshot that agrees with the message stays as it is for the rest of
    the scan. *)
Lemma scan_keeps (idx : index) (msg : message) (m : string) (x v : pyval)
    (l : list string) :
  reported msg m = Some v -> py_eq x v = true ->
  forall (al : list alarm) (st : state),
    measurement_value st !! m = Some x ->
    measurement_value (fst (for_fold l (process_measurement idx msg) al st)) !! m
    = Some x.
Proof.
  intros R E. induction l as [| k l IH]; intros al st S; [exact S |].
  rewrite for_fold_cons.
  destruct (process_measurement idx msg al k st) as [st1 o1] eqn:P.
  apply process_measurement_inv in P.
  assert (S1 : measurement_value st1 !! m = Some x).
  { destruct (decide (k = m)) as [-> | N].
    - destruct P; try assumption; congruence.
    - erewrite meas_step_other; eauto. }
  destruct o1; [now apply IH | exact S1].
Qed.

(** After a scan that returns, every scanned measurement has a snapshot equal
    to what the message reports, and it is the reported value itself where
    there was no snapshot before. *)
Lemma scan_records (idx : index) (msg : message) (m : string) (l : list string) :
  m ∈ l ->
  forall (al al' : list alarm) (st st' : state),
    for_fold l (process_measurement idx msg) al st = (st', Ret al') ->
    exists v x,
      reported msg m = Some v /\
      measurement_value st' !! m = Some x /\
      py_eq x v = true /\
      (measurement_value st !! m = None -> x = v).
Proof.
  induction l as [| k l IH]; intros Hin al al' st st' H.
  - now apply elem_of_nil in Hin.
  - rewrite for_fold_cons in H.
    destruct (process_measurement idx msg al k st) as [st1 o1] eqn:P.
    apply process_measurement_inv in P.
    destruct o1 as [al1 | e]; [| discriminate].
    destruct (decide (m = k)) as [-> | N].
    + assert (exists v x, reported msg k = Some v /\
                measurement_value st1 !! k = Some x /\ py_eq x v = true /\
                (measurement_value st !! k = None -> x = v))
        as (v & x & R & S1 & E & F).
      { inversion P; subst; simpl.
        - exists v, v. rewrite lookup_insert_eq. auto using py_eq_refl.
        - exists v, old. split_and!; auto. congruence.
        - exists v, v. rewrite lookup_insert_eq. auto using py_eq_refl.
        - exists v, v. rewrite lookup_insert_eq. auto using py_eq_refl. }
      exists v, x. split_and!; auto.
      pose proof (scan_keeps idx msg k x v l R E al1 st1 S1) as K.
      now rewrite H in K.
    + apply elem_of_cons in Hin as [? | Hin]; [contradiction |].
      destruct (IH Hin _ _ _ _ H) as (v & x & R & S' & E & F).
      exists v, x. split_and!; auto.
      intros Z. apply F. erewrite meas_step_other; eauto.
Qed.

Lemma for_fold_app {A B} (l1 l2 : list B) (body : A -> B -> M A) (a : A)
    (st : state) :
  for_fold (l1 ++ l2) body a st =
  match for_fold l1 body a st with
  | (st1, Ret a1) => for_fold l2 body a1 st1
  | (st1, Raise e) => (st1, Raise e)
  end.
Proof.
  revert a st. induction l1 as [| x l1 IH]; intros a st; [reflexivity |].
  simpl app. rewrite !for_fold_cons.
  destruct (body a x st) as [st1 [a1 | e]]; [apply IH | reflexivity].
Qed.

(** Neither loop sends anything, and the measurement loop allocates nothing. *)
Lemma meas_step_frame (idx : index) (msg : message) (al : list alarm)
    (m : string) (st st' : state) (o : outcome (list alarm)) :
  meas_step idx msg al m st st' o ->
  sent st' = sent st /\ next_ref st' = next_ref st.
Proof. intros H. destruct H; simpl; auto. Qed.

Lemma scan_frame (idx : index) (msg : message) (l : list string) :
  forall (al : list alarm) (st : state),
    sent (fst (for_fold l (process_measurement idx msg) al st)) = sent st /\
    next_ref (fst (for_fold l (process_measurement idx msg) al st)) = next_ref st.
Proof.
  induction l as [| k l IH]; intros al st; [auto |].
  rewrite for_fold_cons.
  destruct (process_measurement idx msg al k st) as [st1 o1] eqn:P.
  apply process_measurement_inv, meas_step_frame in P as [P1 P2].
  destruct o1 as [al1 | e]; simpl; [| auto].
  destruct (IH al1 st1) as [I1 I2]. split; congruence.
Qed.

(** The scan writes the snapshots of the measurements it visits only. *)
Lemma scan_touches (idx : index) (msg : message) (k : string) (l : list string) :
  k ∉ l ->
  forall (al : list alarm) (st : state),
    measurement_value (fst (for_fold l (process_measurement idx msg) al st)) !! k
    = measurement_value st !! k.
Proof.
  induction l as [| m l IH]; intros N al st; [reflexivity |].
  apply not_elem_of_cons in N as [N1 N2]. rewrite for_fold_cons.
  destruct (process_measurement idx msg al m st) as [st1 o1] eqn:P.
  apply process_measurement_inv in P.
  pose proof (meas_step_other _ _ _ _ _ _ _ _ P N1) as E.
  destruct o1 as [al1 | e]; simpl; [| exact E].
  rewrite IH by assumption. exact E.
Qed.

Lemma process_item_frame (idx : index) (h : headers) (item : diff_item)
    (st : state) :
  measurement_value (fst (process_item idx h item st)) = measurement_value st /\
  sent (fst (process_item idx h item st)) = sent st /\
  next_ref st <= next_ref (fst (process_item idx h item st)).
Proof.
  unfold process_item.
  destruct (PyDict.mem _ _); [| simpl; auto].
  destruct (in_list _ _); [| simpl; auto].
  unfold bind, new_dict, subscript, ret, raise, set_input_map, modify.
  destruct (PyDict.get _ _); simpl; [| auto].
  destruct (eq_phases_map idx !! _); simpl; auto.
Qed.

Lemma handle_input_frame (idx : index) (h : headers) (msg : message)
    (st : state) :
  measurement_value (fst (handle_input idx h msg st)) = measurement_value st /\
  sent (fst (handle_input idx h msg st)) = sent st /\
  next_ref st <= next_ref (fst (handle_input idx h msg st)).
Proof.
  unfold handle_input. destruct (contains _ _); [| simpl; auto].
  unfold bind, subscript. destruct (msg_input msg) as [items |]; simpl; [| auto].
  revert st. induction items as [| it items IH]; intros st; [simpl; auto |].
  rewrite for_each_cons.
  destruct (process_item_frame idx h it st) as (F1 & F2 & F3).
  destruct (process_item idx h it st) as [st1 [[] | e]]; simpl in *; [| auto].
  destruct (IH st1) as (I1 & I2 & I3). split_and!; try congruence. lia.
Qed.

(** C3: when [m] has no snapshot yet, the loop body stores the value the
    message reports for [m] and hands back [alarm_list] as it got it, with
    [input_map] untouched whatever commands are pending; and after an output
    message that [on_message] handles to the end, the snapshot of every such
    tracked [m] is the reported value. *)
Theorem no_baseline_property (idx : index) (msg : message) (al : list alarm)
    (m : string) (v : pyval) (st : state) :
  measurement_value st !! m = None ->
  reported msg m = Some v ->
  process_measurement idx msg al m st
  = (with_measurement_value m v st, Ret al) /\
  input_map (with_measurement_value m v st) = input_map st /\
  (forall (h : headers) (st' : state),
      m ∈ PyDict.keys (measurement_dict idx) ->
      contains "output" (destination h) = true ->
      on_message idx h msg st = (st', Ret tt) ->
      measurement_value st' !! m = Some v).
Proof.
  intros S R. split_and!; [| reflexivity |].
  - pose proof (process_measurement_spec idx msg al m st) as P.
    destruct (process_measurement idx msg al m st) as [st1 o1]. simpl in P.
    inversion P; subst; congruence.
  - intros h st' Hin Hout H. unfold on_message, bind in H.
    pose proof (handle_input_frame idx h msg st) as (F1 & _).
    destruct (handle_input idx h msg st) as [st1 [[] | e]]; [| discriminate].
    simpl in F1. unfold handle_output in H. rewrite Hout in H.
    destruct (for_fold _ _ _ st1) as [st2 [al2 | e]] eqn:L; [| discriminate].
    destruct (scan_records idx msg m _ Hin _ _ _ _ L) as (v' & x & R' & S' & _ & F).
    assert (st' = st2 \/ st' = with_sent al2 st2) as [-> | ->].
    { unfold publish, send, modify, ret in H.
      destruct (negb _); inversion H; auto. }
    + rewrite S'. f_equal. rewrite F by congruence. congruence.
    + simpl. rewrite S'. f_equal. rewrite F by congruence. congruence.
Qed.

Lemma no_baseline_property_witness :
  process_measurement Example.idx
    (snd (Example.output_event 999 [("M1", VInt 0)])) [] "M1"
    (deliver Example.idx init (Example.command_event [Example.open_SW1]))
  = (with_measurement_value "M1" (VInt 0)
       (deliver Example.idx init (Example.command_event [Example.open_SW1])),
     Ret []).
Proof.
  apply (no_baseline_property Example.idx
           (snd (Example.output_event 999 [("M1", VInt 0)])) [] "M1" (VInt 0)
           (deliver Example.idx init (Example.command_event [Example.open_SW1])));
    vm_compute; reflexivity.
Defined.

(** C7: when the message reports for [m] a value equal to its snapshot, the
    loop body changes nothing: same snapshots, same pending commands, same
    [alarm_list], nothing sent. *)
Theorem idempotent_reobservation (idx : index) (msg : message)
    (al : list alarm) (m : string) (old v : pyval) (st : state) :
  measurement_value st !! m = Some old ->
  reported msg m = Some v ->
  py_eq old v = true ->
  process_measurement idx msg al m st = (st, Ret al).
Proof.
  intros S R E.
  pose proof (process_measurement_spec idx msg al m st) as P.
  destruct (process_measurement idx msg al m st) as [st1 o1]. simpl in P.
  inversion P; subst; congruence.
Qed.

Lemma idempotent_reobservation_witness :
  let st := run Example.idx
              [Example.command_event [Example.open_SW1];
               Example.output_event 999 [("M1", VInt 0)]] init in
  process_measurement Example.idx
    (snd (Example.output_event 1000 [("M1", VBool false)])) [] "M1" st
  = (st, Ret []).
Proof.
  intros st.
  apply (idempotent_reobservation Example.idx
           (snd (Example.output_event 1000 [("M1", VBool false)])) [] "M1"
           (VInt 0) (VBool false) st); vm_compute; reflexivity.
Defined.

(** ** Publishing *)

(** C9: when both loops of [on_message] run to their end and the measurement
    loop leaves [alarm_list], [send] is called once, with the whole of
    [alarm_list], if it is not empty, and not at all if it is empty. *)
Theorem single_batch (idx : index) (h : headers) (msg : message)
    (st st1 st2 : state) (alarm_list : list alarm) :
  handle_input idx h msg st = (st1, Ret tt) ->
  handle_output idx h msg st1 = (st2, Ret alarm_list) ->
  on_message idx h msg st =
    (match alarm_list with [] => st2 | _ :: _ => with_sent alarm_list st2 end,
     Ret tt) /\
  sent (fst (on_message idx h msg st)) =
    sent st ++ match alarm_list with [] => [] | _ :: _ => [alarm_list] end.
Proof.
  intros H1 H2.
  assert (E : on_message idx h msg st =
    (match alarm_list with [] => st2 | _ :: _ => with_sent alarm_list st2 end,
     Ret tt)).
  { unfold on_message, bind. rewrite H1, H2.
    unfold publish, send, modify, ret. now destruct alarm_list. }
  split; [exact E |]. rewrite E.
  pose proof (handle_input_frame idx h msg st) as (_ & F1 & _). rewrite H1 in F1.
  assert (F2 : sent st2 = sent st1).
  { unfold handle_output in H2. destruct (contains _ _).
    - pose proof (scan_frame idx msg (PyDict.keys (measurement_dict idx)) [] st1)
        as [F _]. now rewrite H2 in F.
    - unfold ret in H2. congruence. }
  simpl in F1. destruct alarm_list; simpl; rewrite ?app_nil_r; congruence.
Qed.

Lemma single_batch_witness :
  let st := run Example.idx
              [Example.command_event [Example.open_SW1];
               Example.output_event 999 [("M1", VInt 0)]] init in
  let ev := Example.output_event 1000 [("M1", VInt 1)] in
  length (sent (fst (on_message Example.idx (fst ev) (snd ev) st))) = 1.
Proof.
  intros st ev.
  destruct (handle_output Example.idx (fst ev) (snd ev) st) as [st2 o] eqn:E.
  destruct o as [alarm_list | e]; [| vm_compute in E; discriminate].
  destruct (single_batch Example.idx (fst ev) (snd ev) st st st2 alarm_list
              eq_refl E) as [_ S].
  rewrite S. vm_compute in E. injection E as _ <-. reflexivity.
Defined.

(** C9, as the claim has it, fails for a call that stops at a fault after the
    scan has taken a command: with the second measurement missing from the
    message, and likewise with the second measurement missing from
    [meas_eq_map], the command for ["SW1"] is in [alarm_list] when the call
    stops and nothing is sent. *)
Lemma produced_not_sent :
  produced Partial.idx (fst Partial.change) (snd Partial.change) Partial.before
  <> [] /\
  ~ sends_what_it_produced Partial.idx (fst Partial.change)
      (snd Partial.change) Partial.before /\
  ~ sends_what_it_produced Unmapped.idx (fst Unmapped.change)
      (snd Unmapped.change) Unmapped.before.
Proof.
  split_and!.
  - vm_compute. discriminate.
  - unfold sends_what_it_produced. intros H. vm_compute in H. discriminate.
  - unfold sends_what_it_produced. intros H. vm_compute in H. discriminate.
Qed.

(** When the scan returns, what it has produced is the list it returns. *)
Lemma scan_produced_returns (idx : index) (msg : message) (l : list string) :
  forall al st st' al',
    for_fold l (process_measurement idx msg) al st = (st', Ret al') ->
    scan_produced idx msg l al st = al'.
Proof.
  induction l as [| k l IH]; intros al st st' al' H.
  - simpl in *. unfold ret in H. congruence.
  - rewrite for_fold_cons in H. simpl.
    destruct (process_measurement idx msg al k st) as [st1 [al1 | e]];
      [now apply (IH _ _ _ _ H) | discriminate].
Qed.

(** A call that returns has sent what it produced. *)
Lemma returned_sends_what_it_produced (idx : index) (h : headers)
    (msg : message) (st st' : state) :
  on_message idx h msg st = (st', Ret tt) ->
  sends_what_it_produced idx h msg st.
Proof.
  intros H. unfold sends_what_it_produced, produced. rewrite H. simpl.
  unfold on_message, bind in H.
  pose proof (handle_input_frame idx h msg st) as (_ & F1 & _).
  destruct (handle_input idx h msg st) as [st1 [[] | e]]; [| discriminate].
  simpl in F1. unfold handle_output in H.
  destruct (contains "output" (destination h)).
  - pose proof (scan_frame idx msg (PyDict.keys (measurement_dict idx)) [] st1)
      as [F2 _].
    destruct (for_fold _ _ _ st1) as [st2 [al2 | e]] eqn:L; [| discriminate].
    rewrite (scan_produced_returns _ _ _ _ _ _ _ L). simpl in F2.
    unfold publish, send, modify, ret in H.
    destruct al2; simpl in H; injection H as <-; simpl;
      rewrite ?app_nil_r; congruence.
  - unfold ret, publish in H. simpl in H. injection H as <-.
    rewrite app_nil_r. congruence.
Qed.

(** A message that [on_message] does not handle to the end sends nothing. *)
Lemma fault_sends_nothing (idx : index) (h : headers) (msg : message)
    (st : state) (e : exn) :
  snd (on_message idx h msg st) = Raise e ->
  sent (fst (on_message idx h msg st)) = sent st.
Proof.
  unfold on_message, bind.
  pose proof (handle_input_frame idx h msg st) as (_ & F1 & _).
  destruct (handle_input idx h msg st) as [st1 [[] | e1]]; simpl in *; [| auto].
  assert (F2 : sent (fst (handle_output idx h msg st1)) = sent st1).
  { unfold handle_output. destruct (contains _ _); [| reflexivity].
    apply scan_frame. }
  destruct (handle_output idx h msg st1) as [st2 [al | e2]]; simpl in *.
  - unfold publish, send, modify, ret. destruct (negb _); discriminate.
  - intros _. congruence.
Qed.

(** ** A measurement the message does not carry *)

(** C10: the scan subscripts the message's measurements at every key of
    [measurement_dict]; when one of them, [m], is not there, [on_message]
    ends in a [KeyError] instead of returning, and no measurement from [m]
    on has had its snapshot written. *)
Theorem missing_measurement_faults (idx : index) (h : headers) (msg : message)
    (st : state) (l1 l2 : list string) (m : string) :
  contains "output" (destination h) = true ->
  PyDict.keys (measurement_dict idx) = l1 ++ m :: l2 ->
  reported msg m = None ->
  (exists key, snd (on_message idx h msg st) = Raise (KeyError key)) /\
  (forall k, k ∉ l1 ->
     measurement_value (fst (on_message idx h msg st)) !! k
     = measurement_value st !! k) /\
  sent (fst (on_message idx h msg st)) = sent st.
Proof.
  intros Hout Hk R.
  assert (A : (exists key, snd (on_message idx h msg st) = Raise (KeyError key)) /\
              (forall k, k ∉ l1 ->
                 measurement_value (fst (on_message idx h msg st)) !! k
                 = measurement_value st !! k)).
  { unfold on_message, bind.
    pose proof (handle_input_frame idx h msg st) as (F1 & _).
    destruct (handle_input idx h msg st) as [st1 [[] | [key]]]; simpl in F1.
    - unfold handle_output. rewrite Hout, Hk, for_fold_app.
      pose proof (scan_touches idx msg) as T.
      destruct (for_fold l1 (process_measurement idx msg) [] st1)
        as [st2 [al2 | [key]]] eqn:L1.
      + rewrite for_fold_cons.
        pose proof (process_measurement_spec idx msg al2 m st2) as P.
        destruct (process_measurement idx msg al2 m st2) as [st3 o3].
        simpl in P. inversion P; subst; try congruence.
        simpl. split; [eauto |]. intros x N.
        specialize (T x l1 N [] st1). rewrite L1 in T. simpl in T. congruence.
      + simpl. split; [eauto |]. intros k N.
        specialize (T k l1 N [] st1). rewrite L1 in T. simpl in T. congruence.
    - simpl. split; [eauto |]. intros k _. now rewrite F1. }
  destruct A as [[key E] S]. split_and!; eauto using fault_sends_nothing.
Qed.

Lemma missing_measurement_faults_witness :
  let st := run Example.idx [Example.output_event 999 [("M1", VInt 0)]] init in
  let ev := Example.output_event 1000 [("M9", VInt 1)] in
  exists key,
    snd (on_message Example.idx (fst ev) (snd ev) st) = Raise (KeyError key).
Proof.
  intros st ev.
  apply (missing_measurement_faults Example.idx (fst ev) (snd ev) st [] [] "M1");
    vm_compute; reflexivity.
Defined.

(** ** Command instances across a run *)

Section Consistency.

(** Instances known to be out of the table for good. *)
Variable gone : list nat.

Lemma refs_out_snoc (st : state) (al : list alarm) (a : alarm) :
  refs_out gone st (al ++ [a]) = refs_out gone st al ++ [alarm_ref a].
Proof.
  unfold refs_out. now rewrite !app_assoc, map_app, <- !app_assoc.
Qed.

Lemma refs_out_send (st : state) (al : list alarm) :
  refs_out gone (with_sent al st) [] = refs_out gone st al.
Proof.
  unfold refs_out, published. simpl.
  rewrite concat_app. simpl. now rewrite !app_nil_r.
Qed.

Lemma refs_out_local (st : state) (al : list alarm) :
  refs_out gone st al = refs_out gone st [] ++ map alarm_ref al.
Proof.
  unfold refs_out. now rewrite app_nil_r, map_app, app_assoc.
Qed.

(** Only [input_map], [next_ref] and [sent] matter. *)
Lemma consistent_frame (st st' : state) (al : list alarm) :
  input_map st' = input_map st -> next_ref st <= next_ref st' ->
  sent st' = sent st ->
  consistent gone st al -> consistent gone st' al.
Proof.
  intros E1 E2 E3 [B I N L D].
  assert (R : refs_out gone st' al = refs_out gone st al).
  { unfold refs_out, published. now rewrite E3. }
  split; rewrite ?R, ?E1.
  - intros k c H. specialize (B k c H). lia.
  - exact I.
  - exact N.
  - intros r H. specialize (L r H). lia.
  - exact D.
Qed.

Lemma consistent_drop (st : state) (al : list alarm) :
  consistent gone st al -> consistent gone st [].
Proof.
  intros [B I N L D]. rewrite refs_out_local in N.
  apply NoDup_app in N as (N & _ & _).
  split; auto.
  - intros r H. apply L. rewrite refs_out_local. apply elem_of_app. auto.
  - intros r k c H. apply D. rewrite refs_out_local. apply elem_of_app. auto.
Qed.

Lemma consistent_send (st : state) (al : list alarm) :
  consistent gone st al -> consistent gone (with_sent al st) [].
Proof.
  intros [B I N L D]. split; rewrite ?refs_out_send; auto.
Qed.

(** A fresh instance stored in the table. *)
Lemma consistent_with_input (st : state) (al : list alarm) (k : string)
    (c : command) :
  cmd_ref c = next_ref st ->
  consistent gone st al -> consistent gone (with_input k c (fst (new_dict st))) al.
Proof.
  intros E [B I N L D].
  assert (R : refs_out gone (with_input k c (fst (new_dict st))) al = refs_out gone st al)
    by reflexivity.
  split; rewrite ?R; simpl.
  - intros k0 c0 H. apply lookup_insert_Some in H as [[_ <-] | [_ H]].
    + lia.
    + specialize (B k0 c0 H). lia.
  - intros k1 k2 c1 c2 H1 H2 Q.
    apply lookup_insert_Some in H1 as [[<- <-] | [N1 H1]];
      apply lookup_insert_Some in H2 as [[<- <-] | [N2 H2]].
    + reflexivity.
    + specialize (B _ _ H2). lia.
    + specialize (B _ _ H1). lia.
    + eauto.
  - exact N.
  - intros r H. specialize (L r H). lia.
  - intros r k0 c0 H H0. apply lookup_insert_Some in H0 as [[_ <-] | [_ H0]].
    + specialize (L r H). lia.
    + eauto.
Qed.

Lemma consistent_item (idx : index) (h : headers) (item : diff_item)
    (st : state) (al : list alarm) :
  consistent gone st al -> consistent gone (fst (process_item idx h item st)) al.
Proof.
  intros C. unfold process_item.
  destruct (PyDict.mem _ _); [| exact C].
  destruct (in_list _ _); [| exact C].
  unfold bind, subscript, ret, raise, set_input_map, modify.
  destruct (new_dict st) as [st1 o1] eqn:A.
  assert (A1 : st1 = fst (new_dict st)) by now rewrite A.
  assert (A2 : o1 = Ret (next_ref st)) by (unfold new_dict in A; congruence).
  assert (C1 : consistent gone st1 al).
  { subst st1. apply (consistent_frame st); simpl; auto. }
  subst o1.
  destruct (PyDict.get _ _); [| exact C1].
  destruct (eq_phases_map idx !! _); [| exact C1].
  simpl. subst st1. now apply consistent_with_input.
Qed.

Lemma consistent_meas (idx : index) (msg : message) (al : list alarm)
    (m : string) (st st' : state) (o : outcome (list alarm)) :
  meas_step idx msg al m st st' o ->
  consistent gone st al -> consistent gone st' (local_after o al).
Proof.
  intros H C.
  destruct H; simpl; try exact C;
    try (apply (consistent_frame st); simpl; auto; fail).
  destruct C as [B I N L D].
  set (a := {| alarm_command := c; timestamp := out_timestamp o |}).
  assert (F : cmd_ref c ∉ refs_out gone st al).
  { intros F. now apply (D _ _ _ F H3). }
  split; simpl.
  - intros k c0 Q. apply lookup_delete_Some in Q as [_ Q]. eauto.
  - intros k1 k2 c1 c2 Q1 Q2.
    apply lookup_delete_Some in Q1 as [_ Q1].
    apply lookup_delete_Some in Q2 as [_ Q2]. eauto.
  - change (refs_out gone (without_input e (with_measurement_value m v st))
              (al ++ [a])) with (refs_out gone st (al ++ [a])).
    rewrite refs_out_snoc. apply NoDup_app. split_and!; [exact N | |].
    + intros r Hr Q. apply list_elem_of_singleton in Q. now subst.
    + apply NoDup_singleton.
  - change (refs_out gone (without_input e (with_measurement_value m v st))
              (al ++ [a])) with (refs_out gone st (al ++ [a])).
    rewrite refs_out_snoc. intros r Hr.
    apply elem_of_app in Hr as [Hr | Hr]; [auto |].
    apply list_elem_of_singleton in Hr. subst r. eauto.
  - change (refs_out gone (without_input e (with_measurement_value m v st))
              (al ++ [a])) with (refs_out gone st (al ++ [a])).
    rewrite refs_out_snoc. intros r k c0 Hr Q.
    apply lookup_delete_Some in Q as [Ne Q].
    apply elem_of_app in Hr as [Hr | Hr]; [eauto |].
    apply list_elem_of_singleton in Hr. subst r. intros Q'.
    apply Ne. symmetry. exact (I _ _ _ _ Q H3 Q').
Qed.

Lemma consistent_scan (idx : index) (msg : message) (l : list string) :
  forall (al : list alarm) (st : state),
    consistent gone st al ->
    match for_fold l (process_measurement idx msg) al st with
    | (st', Ret al') => consistent gone st' al'
    | (st', Raise _) => consistent gone st' []
    end.
Proof.
  induction l as [| m l IH]; intros al st C; [exact C |].
  rewrite for_fold_cons.
  destruct (process_measurement idx msg al m st) as [st1 o1] eqn:P.
  apply process_measurement_inv in P.
  pose proof (consistent_meas _ _ _ _ _ _ _ P C) as C1.
  destruct o1 as [al1 | e]; simpl in C1.
  - now apply IH.
  - now apply consistent_drop in C1.
Qed.

Lemma consistent_input (idx : index) (h : headers) (msg : message)
    (st : state) :
  consistent gone st [] -> consistent gone (fst (handle_input idx h msg st)) [].
Proof.
  intros C. unfold handle_input. destruct (contains _ _); [| exact C].
  unfold bind, subscript. destruct (msg_input msg) as [items |]; [| exact C].
  simpl. revert st C. induction items as [| it items IH]; intros st C; [exact C |].
  rewrite for_each_cons.
  pose proof (consistent_item idx h it st [] C) as C1.
  destruct (process_item idx h it st) as [st1 [[] | e]]; simpl in *; auto.
Qed.

Lemma consistent_on_message (idx : index) (h : headers) (msg : message)
    (st : state) :
  consistent gone st [] -> consistent gone (fst (on_message idx h msg st)) [].
Proof.
  intros C. unfold on_message, bind.
  pose proof (consistent_input idx h msg st C) as C1.
  destruct (handle_input idx h msg st) as [st1 [[] | e]]; simpl in C1;
    [| exact C1].
  unfold handle_output. destruct (contains _ _).
  - pose proof (consistent_scan idx msg (PyDict.keys (measurement_dict idx))
                  [] st1 C1) as C2.
    destruct (for_fold _ _ _ st1) as [st2 [al2 | e]]; [| exact C2].
    unfold publish, send, modify, ret.
    destruct (negb _); simpl.
    + now apply consistent_send.
    + now apply consistent_drop in C2.
  - unfold ret, publish. simpl. exact C1.
Qed.

Lemma consistent_run (idx : index) (evs : list event) :
  forall st, consistent gone st [] -> consistent gone (run idx evs st) [].
Proof.
  unfold run. induction evs as [| ev evs IH]; intros st C; [exact C |].
  simpl. apply IH. unfold deliver. now apply consistent_on_message.
Qed.

End Consistency.

Lemma consistent_init : consistent [] init [].
Proof.
  split; simpl.
  - intros k c H. now rewrite lookup_empty in H.
  - intros k k' c c' H. now rewrite lookup_empty in H.
  - apply NoDup_nil_2.
  - intros r H. now apply elem_of_nil in H.
  - intros r k c H. now apply elem_of_nil in H.
Qed.

Lemma run_steps (idx : index) (evs : list event) (st : state) :
  run idx evs st = steps idx (map Call evs) st.
Proof.
  unfold run, steps. revert st.
  induction evs as [| ev evs IH]; intros st; [reflexivity | apply IH].
Qed.

(** The command loop is a run of [Item] steps, cut short by a fault. *)
Lemma for_each_steps (idx : index) (h : headers) (items : list diff_item) :
  forall st, exists n,
    fst (for_each items (process_item idx h) st)
    = steps idx (map (Item h) (take n items)) st.
Proof.
  induction items as [| it items IH]; intros st; [now exists 0 |].
  rewrite for_each_cons.
  destruct (process_item idx h it st) as [st1 [[] | e]] eqn:P.
  - destruct (IH st1) as [n Hn]. exists (S n). simpl. now rewrite P.
  - exists 1. simpl. now rewrite P.
Qed.

Lemma consistent_steps (gone : list nat) (idx : index) (l : list step) :
  forall st, consistent gone st [] -> consistent gone (steps idx l st) [].
Proof.
  unfold steps. induction l as [| s l IH]; intros st C; [exact C |].
  simpl. apply IH. destruct s as [h item | ev]; simpl.
  - now apply consistent_item.
  - now apply consistent_on_message.
Qed.

(** Storing a fresh instance over a pending one puts the pending one out
    of the table for good. *)
Lemma consistent_overwrite (st : state) (k : string) (c1 c2 : command) :
  consistent [] st [] ->
  input_map st !! k = Some c1 ->
  cmd_ref c2 = next_ref st ->
  consistent [cmd_ref c1] (with_input k c2 (fst (new_dict st))) [].
Proof.
  intros C H E.
  pose proof (consistent_with_input [] st [] k c2 E C) as [B I N L D].
  destruct C as [B0 I0 N0 L0 D0].
  split; auto.
  - change (NoDup (cmd_ref c1 :: refs_out [] st [])).
    apply NoDup_cons. split; [| exact N0].
    intros F. now apply (D0 _ _ _ F H).
  - intros r Hr. apply elem_of_cons in Hr as [-> | Hr]; [| now apply L].
    specialize (B0 _ _ H). simpl. lia.
  - intros r k0 c0 Hr Q. apply elem_of_cons in Hr as [-> | Hr].
    + simpl in Q. apply lookup_insert_Some in Q as [[_ <-] | [Ne Q]].
      * specialize (B0 _ _ H). lia.
      * intros Q'. apply Ne. symmetry. exact (I0 _ _ _ _ Q H Q').
    + now apply (D r k0 c0).
Qed.

(** C1: over any stream of messages, no command instance is referenced by
    two of the alarms handed to [send], and an instance that has been sent
    is no longer in [input_map]; the loop body that finds a changed value
    for a measurement of an equipment with a pending command deletes the
    command from [input_map] and appends it, stamped, to [alarm_list]. *)
Theorem at_most_once (idx : index) (evs : list event) :
  NoDup (map alarm_ref (published (run idx evs init))) /\
  (forall a k c,
      a ∈ published (run idx evs init) ->
      input_map (run idx evs init) !! k = Some c ->
      cmd_ref c <> alarm_ref a) /\
  (forall msg al m st v old e c o,
      reported msg m = Some v ->
      measurement_value st !! m = Some old ->
      py_eq old v = false ->
      meas_eq_map idx !! m = Some e ->
      input_map st !! e = Some c ->
      msg_message msg = Some o ->
      process_measurement idx msg al m st
      = (without_input e (with_measurement_value m v st),
         Ret (al ++ [{| alarm_command := c; timestamp := out_timestamp o |}])) /\
      input_map (without_input e (with_measurement_value m v st)) !! e = None).
Proof.
  pose proof (consistent_run [] idx evs init consistent_init) as [_ _ N _ D].
  unfold refs_out in N, D. simpl in N, D. rewrite app_nil_r in N, D.
  split_and!.
  - exact N.
  - intros a k c Ha Hk. apply (D (alarm_ref a) k c); [| exact Hk].
    apply list_elem_of_fmap. eauto.
  - intros msg al m st v old e c o R S E Q I O. split.
    + pose proof (process_measurement_spec idx msg al m st) as P.
      destruct (process_measurement idx msg al m st) as [st1 o1]. simpl in P.
      inversion P; subst; congruence.
    + simpl. apply lookup_delete_eq.
Qed.

Lemma at_most_once_witness :
  NoDup (map alarm_ref
           (published
              (run Example.idx
                 [Example.command_event [Example.open_SW1];
                  Example.output_event 999 [("M1", VInt 0)];
                  Example.output_event 1000 [("M1", VInt 1)];
                  Example.output_event 1001 [("M1", VInt 0)]] init))).
Proof.
  apply (at_most_once Example.idx
           [Example.command_event [Example.open_SW1];
            Example.output_event 999 [("M1", VInt 0)];
            Example.output_event 1000 [("M1", VInt 1)];
            Example.output_event 1001 [("M1", VInt 0)]]).
Defined.

(** C4: with two command messages for an equipment that is a key of
    [equipment_dict] but has no entry in [eq_phases_map], each item passes
    the two tests of lines 117-118, each call raises [KeyError] at line 124
    before the assignment of line 125, and afterwards [input_map] holds no
    command for the equipment: not the first, and not the second either. *)
Theorem overwrite_lost_without_phases :
  tracked Bare.idx Bare.switch_CAP1 /\
  eq_phases_map Bare.idx !! "CAP1" = None /\
  snd (on_message Bare.idx (fst Lost.first) (snd Lost.first) init)
  = Raise (KeyError "CAP1") /\
  snd (on_message Bare.idx (fst Lost.second) (snd Lost.second)
         (deliver Bare.idx init Lost.first))
  = Raise (KeyError "CAP1") /\
  input_map (run Bare.idx [Lost.first; Lost.second] init) !! "CAP1" = None /\
  sent (run Bare.idx [Lost.first; Lost.second] init) = [].
Proof.
  split_and!; try (vm_compute; reflexivity).
  split; [| left; reflexivity].
  vm_compute. apply list_elem_of_here.
Qed.

(** ** A tracked measurement without an equipment *)

(** The general shape of the fault: a changed value for a measurement that
    [meas_eq_map] does not know is written to the snapshot, and the subscript
    of line 137 raises. *)
Lemma unmapped_change_raises (idx : index) (msg : message) (al : list alarm)
    (m : string) (old v : pyval) (st : state) :
  measurement_value st !! m = Some old ->
  reported msg m = Some v ->
  py_eq old v = false ->
  meas_eq_map idx !! m = None ->
  process_measurement idx msg al m st
  = (with_measurement_value m v st, Raise (KeyError m)).
Proof.
  intros S R E Q.
  pose proof (process_measurement_spec idx msg al m st) as P.
  destruct (process_measurement idx msg al m st) as [st1 o1]. simpl in P.
  inversion P; subst; congruence.
Qed.

(** C2: the index build keeps ["M2"] in [measurement_dict] and leaves it out
    of [meas_eq_map]; when its value changes, [on_message] raises
    [KeyError("M2")].  The command for ["SW1"], which the same scan had
    already taken out of [input_map], is sent in no alarm. *)
Theorem unmapped_measurement_fault :
  PyDict.keys (measurement_dict Unmapped.idx) = ["M1"; "M2"] /\
  meas_eq_map Unmapped.idx !! "M2" = None /\
  is_Some (input_map Unmapped.before !! "SW1") /\
  snd (on_message Unmapped.idx (fst Unmapped.change) (snd Unmapped.change)
         Unmapped.before) = Raise (KeyError "M2") /\
  input_map (deliver Unmapped.idx Unmapped.before Unmapped.change) !! "SW1"
  = None /\
  sent (deliver Unmapped.idx Unmapped.before Unmapped.change) = [].
Proof.
  split_and!; try (vm_compute; reflexivity).
  vm_compute. eauto.
Qed.

(** ** The phases recorded for an equipment *)

Lemma append_empty_r (s : string) : String.append s EmptyString = s.
Proof.
  induction s as [| a s IH]; [reflexivity | exact (f_equal (String a) IH)].
Qed.

Lemma append_assoc3 (s1 s2 s3 : string) :
  String.append (String.append s1 s2) s3 = String.append s1 (String.append s2 s3).
Proof.
  induction s1 as [| a s1 IH]; [reflexivity | exact (f_equal (String a) IH)].
Qed.

Lemma concat_phases_snoc (l : list measurement) (x : measurement) :
  concat_phases (l ++ [x]) = String.append (concat_phases l) (meas_phases x).
Proof.
  induction l as [| y l IH].
  - exact (append_empty_r (meas_phases x)).
  - change (String.append (meas_phases y) (concat_phases (l ++ [x]))
            = String.append
                (String.append (meas_phases y) (concat_phases l))
                (meas_phases x)).
    now rewrite IH, append_assoc3.
Qed.

(** The inner loop finds the measurement's equipment at most once. *)
Lemma inner_loop_absent (m : string) (rec : measurement) (l : list string) :
  meas_eqid rec ∉ l ->
  forall maps, fold_left (associate m rec) l maps = maps.
Proof.
  induction l as [| x l IH]; intros N maps; [reflexivity |].
  apply not_elem_of_cons in N as [N1 N2]. simpl.
  unfold associate at 2. destruct (String.eqb_spec x (meas_eqid rec)) as [-> | _].
  - contradiction.
  - now apply IH.
Qed.

Lemma inner_loop (m : string) (rec : measurement) (l : list string) :
  NoDup l ->
  forall maps,
    fold_left (associate m rec) l maps =
    if in_list (meas_eqid rec) l then associate m rec maps (meas_eqid rec)
    else maps.
Proof.
  induction l as [| x l IH]; intros N maps; [reflexivity |].
  apply NoDup_cons in N as [N1 N2]. simpl.
  destruct (String.eqb_spec (meas_eqid rec) x) as [<- | Ne]; simpl.
  - now apply inner_loop_absent.
  - assert (A : associate m rec maps x = maps).
    { unfold associate.
      destruct (String.eqb_spec x (meas_eqid rec)); [congruence | reflexivity]. }
    rewrite A. now apply IH.
Qed.

Lemma build_maps_snoc (eqs : PyDict.t equipment) (ms : PyDict.t measurement)
    (m : string) (rec : measurement) :
  NoDup (PyDict.keys eqs) ->
  build_maps eqs (ms ++ [(m, rec)]) =
  if PyDict.mem (meas_eqid rec) eqs
  then associate m rec (build_maps eqs ms) (meas_eqid rec)
  else build_maps eqs ms.
Proof.
  intros N. unfold build_maps. rewrite fold_left_app. simpl.
  now apply inner_loop.
Qed.

Lemma associated_snoc (eqs : PyDict.t equipment) (ms : PyDict.t measurement)
    (m e : string) (rec : measurement) :
  associated eqs (ms ++ [(m, rec)]) e =
  if PyDict.mem (meas_eqid rec) eqs && String.eqb (meas_eqid rec) e
  then associated eqs ms e ++ [rec]
  else associated eqs ms e.
Proof.
  unfold associated. rewrite map_app, List.filter_app. simpl.
  destruct (String.eqb_spec (meas_eqid rec) e) as [-> | Ne].
  - destruct (PyDict.mem e eqs); reflexivity.
  - rewrite andb_false_r, app_nil_r. reflexivity.
Qed.

Lemma build_maps_phases (eqs : PyDict.t equipment) :
  NoDup (PyDict.keys eqs) ->
  forall (ms : PyDict.t measurement) (e : string),
    (build_maps eqs ms).2 !! e = recorded (associated eqs ms e).
Proof.
  intros N ms. induction ms as [| [m rec] ms IH] using rev_ind; intros e.
  - unfold associated. simpl. rewrite lookup_empty. now destruct (PyDict.mem e eqs).
  - rewrite build_maps_snoc, associated_snoc by assumption.
    destruct (PyDict.mem (meas_eqid rec) eqs) eqn:Hm; simpl; [| apply IH].
    unfold associate. rewrite String.eqb_refl. simpl.
    destruct (String.eqb_spec (meas_eqid rec) e) as [<- | Ne].
    + rewrite (IH (meas_eqid rec)).
      destruct (associated eqs ms (meas_eqid rec)) as [| y l]; simpl.
      * rewrite lookup_insert_eq. f_equal. symmetry.
        exact (append_empty_r (meas_phases rec)).
      * rewrite lookup_insert_eq. f_equal.
        change (String.append (concat_phases (y :: l)) (meas_phases rec)
                = concat_phases ((y :: l) ++ [rec])).
        now rewrite concat_phases_snoc.
    + destruct ((build_maps eqs ms).2 !! meas_eqid rec);
        rewrite lookup_insert_ne by assumption; apply IH.
Qed.

Lemma add_equipment_NoDup (response : list equipment) :
  forall d, NoDup (PyDict.keys d) -> NoDup (PyDict.keys (add_equipment response d)).
Proof.
  unfold add_equipment.
  induction response as [| c response IH]; intros d N; [exact N |].
  simpl. apply IH. now apply PyDictFacts.NoDup_keys_set.
Qed.

(** C5, as the code has it: the phase value recorded for an equipment is the
    concatenation of the phase strings of the kept measurements of that
    equipment, one after the other in the order of [measurement_dict], each
    measurement contributing its string once; an equipment with no such
    measurement has no entry. *)
Theorem phases_concatenated (capacitors switches : list equipment)
    (capacitor_meas switch_meas : list measurement) (e : string) :
  let idx := build_index capacitors switches capacitor_meas switch_meas in
  eq_phases_map idx !! e =
  recorded (associated (equipment_dict idx) (measurement_dict idx) e).
Proof.
  simpl. apply build_maps_phases.
  apply add_equipment_NoDup, add_equipment_NoDup. apply NoDup_nil_2.
Qed.

(** C5, as the claim has it, fails: with two measurements of one switch on
    phase A the recorded value is ["AA"]. *)
Lemma phases_not_a_set :
  eq_phases_map SamePhase.idx !! "SW1" = Some "AA" /\
  ~ phases_are_union SamePhase.idx.
Proof.
  assert (E : eq_phases_map SamePhase.idx !! "SW1" = Some "AA")
    by (vm_compute; reflexivity).
  split; [exact E |].
  intros H. destruct (H "SW1" "AA" E) as [N _].
  unfold phase_letters in N. simpl in N.
  apply NoDup_cons in N as [N _]. apply N, list_elem_of_here.
Qed.

(** ** Whole messages *)

(** An output message that repeats every snapshot changes nothing and sends
    nothing. *)
Lemma repeated_output (idx : index) (h : headers) (msg : message) (st : state) :
  (forall m, m ∈ PyDict.keys (measurement_dict idx) ->
     exists old v,
       measurement_value st !! m = Some old /\ reported msg m = Some v /\
       py_eq old v = true) ->
  handle_output idx h msg st = (st, Ret []).
Proof.
  intros H. unfold handle_output. destruct (contains _ _); [| reflexivity].
  generalize (@nil alarm) as al.
  induction (PyDict.keys (measurement_dict idx)) as [| m l IH]; intros al;
    [reflexivity |].
  rewrite for_fold_cons.
  destruct (H m (list_elem_of_here _ _)) as (old & v & S & R & E).
  pose proof (process_measurement_spec idx msg al m st) as P.
  destruct (process_measurement idx msg al m st) as [st1 o1]. simpl in P.
  inversion P; subst; try congruence.
  apply IH. intros k Hk. apply H. now apply list_elem_of_further.
Qed.

(** The first scenario of the specification: command, baseline, change. *)
Example scenario_alarm :
  let st := run Example.idx
              [Example.command_event [Example.open_SW1];
               Example.output_event 999 [("M1", VInt 0)];
               Example.output_event 1000 [("M1", VInt 1)]] init in
  sent st =
    [[{| alarm_command :=
           {| cmd_ref := 0; equipment_mrid := "SW1"; value := "Open";
              created_by := "sim-control"; equipment_name := "sw_1";
              phases := "A" |};
         timestamp := 1000 |}]] /\
  input_map st !! "SW1" = None.
Proof. split; vm_compute; reflexivity. Qed.

(** The second scenario: the same change with no command before it. *)
Example scenario_unprompted :
  sent (run Example.idx
          [Example.output_event 999 [("M1", VInt 0)];
           Example.output_event 1000 [("M1", VInt 1)]] init) = [].
Proof. vm_compute. reflexivity. Qed.

(** A destination that names both topics runs both loops in one call. *)
Example both_loops :
  contains "input" "/topic/goss.gridappsd.simulation.input.output"
  && contains "output" "/topic/goss.gridappsd.simulation.input.output" = true.
Proof. reflexivity. Qed.

(** * Further properties *)

(** ** The directories built by [_main] *)

Lemma get_set (V : Type) (k k' : string) (v : V) (d : PyDict.t V) :
  PyDict.get k (PyDict.set k' v d) =
  if String.eqb k k' then Some v else PyDict.get k d.
Proof.
  induction d as [| [k0 v0] d IH]; simpl; [reflexivity |].
  destruct (String.eqb_spec k' k0) as [-> | N]; simpl.
  - now destruct (String.eqb_spec k k0).
  - rewrite IH. destruct (String.eqb_spec k k0) as [-> | N0];
      destruct (String.eqb_spec k0 k') as [E | _]; congruence.
Qed.

Lemma get_app (V : Type) (k : string) (d1 d2 : PyDict.t V) :
  PyDict.get k (d1 ++ d2) =
  match PyDict.get k d1 with
  | Some v => Some v
  | None => PyDict.get k d2
  end.
Proof.
  induction d1 as [| [k0 v0] d1 IH]; simpl; [reflexivity |].
  now destruct (String.eqb k k0).
Qed.

Lemma get_elem (V : Type) (k : string) (v : V) (d : PyDict.t V) :
  PyDict.get k d = Some v -> (k, v) ∈ d.
Proof.
  induction d as [| [k0 v0] d IH]; simpl; [discriminate |].
  destruct (String.eqb_spec k k0) as [-> | N]; intros H.
  - injection H as ->. apply list_elem_of_here.
  - apply list_elem_of_further. now apply IH.
Qed.

Lemma last_equipment_app (k : string) (l1 l2 : list equipment) :
  last_equipment k (l1 ++ l2) =
  match last_equipment k l2 with
  | Some c => Some c
  | None => last_equipment k l1
  end.
Proof.
  induction l1 as [| c l1 IH]; simpl.
  - now destruct (last_equipment k l2).
  - rewrite IH. now destruct (last_equipment k l2).
Qed.

Lemma last_position_app (k : string) (l1 l2 : list measurement) :
  last_position k (l1 ++ l2) =
  match last_position k l2 with
  | Some c => Some c
  | None => last_position k l1
  end.
Proof.
  induction l1 as [| c l1 IH]; simpl.
  - now destruct (last_position k l2).
  - rewrite IH. now destruct (last_position k l2).
Qed.

Lemma get_add_equipment (k : string) (response : list equipment) :
  forall d,
    PyDict.get k (add_equipment response d) =
    match last_equipment k response with
    | Some c => Some c
    | None => PyDict.get k d
    end.
Proof.
  unfold add_equipment.
  induction response as [| c response IH]; intros d; simpl; [reflexivity |].
  rewrite IH, get_set. destruct (last_equipment k response); [reflexivity |].
  rewrite String.eqb_sym. now destruct (String.eqb (eq_id c) k).
Qed.

Lemma get_add_measurements (k : string) (response : list measurement) :
  forall d,
    PyDict.get k (add_measurements response d) =
    match last_position k response with
    | Some m => Some m
    | None => PyDict.get k d
    end.
Proof.
  unfold add_measurements.
  induction response as [| m response IH]; intros d; simpl; [reflexivity |].
  rewrite IH. destruct (last_position k response); [reflexivity |].
  destruct (String.eqb (meas_type m) "Pos"); simpl; [| reflexivity].
  rewrite get_set, String.eqb_sym. now destruct (String.eqb (meas_measid m) k).
Qed.

Lemma add_measurements_NoDup (response : list measurement) :
  forall d,
    NoDup (PyDict.keys d) -> NoDup (PyDict.keys (add_measurements response d)).
Proof.
  unfold add_measurements.
  induction response as [| m response IH]; intros d N; [exact N |].
  simpl. apply IH. destruct (String.eqb _ _); [| exact N].
  now apply PyDictFacts.NoDup_keys_set.
Qed.

Lemma last_position_kept (k : string) (l : list measurement) (rec : measurement) :
  last_position k l = Some rec ->
  rec ∈ l /\ meas_type rec = "Pos" /\ meas_measid rec = k.
Proof.
  induction l as [| m l IH]; simpl; [discriminate |].
  destruct (last_position k l) as [m' |].
  - intros H. injection H as ->. destruct (IH eq_refl) as (I & T & K).
    split_and!; auto. now apply list_elem_of_further.
  - destruct (String.eqb_spec (meas_type m) "Pos") as [T | _]; simpl;
      [| discriminate].
    destruct (String.eqb_spec (meas_measid m) k) as [K | _]; [| discriminate].
    intros H. injection H as <-. split_and!; auto. apply list_elem_of_here.
Qed.

(** X1: [equipment_dict] holds, under each id, the last record with that id
    among the capacitors followed by the switches (so a switch replaces a
    capacitor of the same id), an id is a key exactly when some record has
    it, and no key occurs twice. *)
Theorem equipment_dict_lookup (capacitors switches : list equipment)
    (capacitor_meas switch_meas : list measurement) (k : string) :
  let idx := build_index capacitors switches capacitor_meas switch_meas in
  PyDict.get k (equipment_dict idx) = last_equipment k (capacitors ++ switches) /\
  (k ∈ PyDict.keys (equipment_dict idx) <->
   exists c, c ∈ capacitors ++ switches /\ eq_id c = k) /\
  NoDup (PyDict.keys (equipment_dict idx)).
Proof.
  simpl.
  assert (G : PyDict.get k
                (add_equipment switches (add_equipment capacitors PyDict.empty))
              = last_equipment k (capacitors ++ switches)).
  { rewrite !get_add_equipment, last_equipment_app. simpl.
    destruct (last_equipment k switches); [reflexivity |].
    now destruct (last_equipment k capacitors). }
  split_and!.
  - exact G.
  - assert (L : forall l, (exists c, last_equipment k l = Some c) <->
                          exists c, c ∈ l /\ eq_id c = k).
    { induction l as [| c l IH]; simpl.
      - split; intros [c H]; [discriminate |].
        destruct H as [H _]. now apply elem_of_nil in H.
      - destruct (last_equipment k l) as [c' |].
        + split; [| eauto]. intros _.
          destruct (proj1 IH (ex_intro _ c' eq_refl)) as (x & Hx & E).
          exists x. split; [now apply list_elem_of_further | exact E].
        + destruct (String.eqb_spec (eq_id c) k) as [E | N].
          * split; [| eauto]. intros _. exists c.
            split; [apply list_elem_of_here | exact E].
          * split; [intros [x H]; discriminate |].
            intros (x & Hx & E). apply elem_of_cons in Hx as [-> | Hx];
              [contradiction |].
            destruct (proj2 IH (ex_intro _ x (conj Hx E))) as [y Hy].
            discriminate. }
    rewrite <- L, <- G. split.
    + intros H. destruct (PyDictFacts.get_is_Some _ _ H) as [v Hv]. eauto.
    + intros [c H]. destruct (decide (k ∈ PyDict.keys
        (add_equipment switches (add_equipment capacitors PyDict.empty))))
        as [I | I]; [exact I |].
      apply PyDictFacts.get_None in I. congruence.
  - apply add_equipment_NoDup, add_equipment_NoDup. apply NoDup_nil_2.
Qed.

(** X2: [measurement_dict] holds, under each measurement id, the last ["Pos"]
    record with that id among the two measurement responses; every record it
    holds is a ["Pos"] record of a response, stored under its own id; no key
    occurs twice. *)
Theorem measurement_dict_lookup (capacitors switches : list equipment)
    (capacitor_meas switch_meas : list measurement) (k : string) :
  let idx := build_index capacitors switches capacitor_meas switch_meas in
  PyDict.get k (measurement_dict idx)
  = last_position k (capacitor_meas ++ switch_meas) /\
  (forall rec,
      (k, rec) ∈ measurement_dict idx ->
      rec ∈ capacitor_meas ++ switch_meas /\
      meas_type rec = "Pos" /\ meas_measid rec = k) /\
  NoDup (PyDict.keys (measurement_dict idx)).
Proof.
  simpl.
  set (ms := add_measurements switch_meas
               (add_measurements capacitor_meas PyDict.empty)).
  assert (N : NoDup (PyDict.keys ms)).
  { apply add_measurements_NoDup, add_measurements_NoDup. apply NoDup_nil_2. }
  assert (G : PyDict.get k ms = last_position k (capacitor_meas ++ switch_meas)).
  { unfold ms. rewrite !get_add_measurements, last_position_app. simpl.
    destruct (last_position k switch_meas); [reflexivity |].
    now destruct (last_position k capacitor_meas). }
  split_and!; [exact G | | exact N].
  intros rec H. apply last_position_kept. rewrite <- G.
  clear G. induction ms as [| [k0 v0] ms IH]; [now apply elem_of_nil in H |].
  simpl in N. apply NoDup_cons in N as [N1 N2]. simpl.
  apply elem_of_cons in H as [H | H].
  - injection H as -> ->. now rewrite String.eqb_refl.
  - destruct (String.eqb_spec k k0) as [-> | _]; [| now apply IH].
    exfalso. apply N1. apply list_elem_of_fmap. exists (k0, rec). auto.
Qed.

(** ** The two maps built by [_main] *)

Lemma build_maps_meas (eqs : PyDict.t equipment) :
  NoDup (PyDict.keys eqs) ->
  forall (ms : PyDict.t measurement) (m : string),
    NoDup (PyDict.keys ms) ->
    (build_maps eqs ms).1 !! m =
    match PyDict.get m ms with
    | Some rec =>
        if PyDict.mem (meas_eqid rec) eqs then Some (meas_eqid rec) else None
    | None => None
    end.
Proof.
  intros N ms. induction ms as [| [k rec] ms IH] using rev_ind; intros m Nm.
  - simpl. apply lookup_empty.
  - unfold PyDict.keys in Nm. rewrite map_app in Nm. simpl in Nm.
    apply NoDup_app in Nm as (N1 & N2 & _).
    assert (Hk : PyDict.get k ms = None).
    { apply PyDictFacts.get_None. intros H. apply (N2 k H), list_elem_of_here. }
    rewrite build_maps_snoc, get_app by assumption. simpl.
    specialize (IH m N1).
    destruct (String.eqb_spec m k) as [-> | Ne].
    + rewrite Hk in *.
      destruct (PyDict.mem (meas_eqid rec) eqs); [| exact IH].
      unfold associate. rewrite String.eqb_refl. simpl. apply lookup_insert_eq.
    + assert (E : (if PyDict.mem (meas_eqid rec) eqs
                   then associate k rec (build_maps eqs ms) (meas_eqid rec)
                   else build_maps eqs ms).1 !! m = (build_maps eqs ms).1 !! m).
      { destruct (PyDict.mem (meas_eqid rec) eqs); [| reflexivity].
        unfold associate. rewrite String.eqb_refl. simpl.
        now rewrite lookup_insert_ne by congruence. }
      rewrite E, IH. now destruct (PyDict.get m ms).
Qed.

(** X3: on an index built by [_main], [meas_eq_map] sends a measurement id to
    an equipment id exactly when [measurement_dict] holds a record under that
    measurement id whose ["eqid"] is that equipment id and a key of
    [equipment_dict]. *)
Theorem meas_eq_map_lookup (capacitors switches : list equipment)
    (capacitor_meas switch_meas : list measurement) (m e : string) :
  let idx := build_index capacitors switches capacitor_meas switch_meas in
  meas_eq_map idx !! m = Some e <->
  exists rec,
    PyDict.get m (measurement_dict idx) = Some rec /\
    meas_eqid rec = e /\
    e ∈ PyDict.keys (equipment_dict idx).
Proof.
  simpl. rewrite build_maps_meas.
  - destruct (PyDict.get m _) as [rec |]; split.
    + destruct (PyDict.mem (meas_eqid rec) _) eqn:M; [| discriminate].
      intros H. injection H as <-. exists rec. split_and!; auto.
      now apply PyDictFacts.mem_spec.
    + intros (rec' & H & <- & K). injection H as <-.
      apply PyDictFacts.mem_spec in K. now rewrite K.
    + discriminate.
    + intros (rec' & H & _). discriminate.
  - apply add_equipment_NoDup, add_equipment_NoDup. apply NoDup_nil_2.
  - apply add_measurements_NoDup, add_measurements_NoDup. apply NoDup_nil_2.
Qed.

(** X4: on an index built by [_main], the equipment that [meas_eq_map] gives
    for a measurement is a key of [equipment_dict] and has an entry in
    [eq_phases_map]. *)
Theorem mapped_equipment_has_phases (capacitors switches : list equipment)
    (capacitor_meas switch_meas : list measurement) (m e : string) :
  let idx := build_index capacitors switches capacitor_meas switch_meas in
  meas_eq_map idx !! m = Some e ->
  e ∈ PyDict.keys (equipment_dict idx) /\
  exists p, eq_phases_map idx !! e = Some p.
Proof.
  simpl. intros H.
  assert (Ne : NoDup (PyDict.keys
                 (add_equipment switches (add_equipment capacitors PyDict.empty)))).
  { apply add_equipment_NoDup, add_equipment_NoDup. apply NoDup_nil_2. }
  rewrite build_maps_meas in H; [| exact Ne |].
  2: { apply add_measurements_NoDup, add_measurements_NoDup. apply NoDup_nil_2. }
  destruct (PyDict.get m _) as [rec |] eqn:G; [| discriminate].
  destruct (PyDict.mem (meas_eqid rec) _) eqn:M; [| discriminate].
  injection H as <-. split; [now apply PyDictFacts.mem_spec |].
  rewrite build_maps_phases by exact Ne. unfold associated. rewrite M.
  apply get_elem in G.
  assert (I : rec ∈ List.filter
                (fun r => String.eqb (meas_eqid r) (meas_eqid rec))
                (map snd (add_measurements switch_meas
                            (add_measurements capacitor_meas PyDict.empty)))).
  { apply list_elem_of_In, List.filter_In. split.
    - apply list_elem_of_In, list_elem_of_fmap. exists (m, rec). auto.
    - apply String.eqb_refl. }
  destruct (List.filter _ _) as [| y l]; [now apply elem_of_nil in I |].
  simpl. eauto.
Qed.

Lemma mapped_equipment_has_phases_witness :
  exists p, eq_phases_map Example.idx !! "SW1" = Some p.
Proof.
  apply (mapped_equipment_has_phases [] [Example.SW1] []
           [Example.mk_pos "M1" "SW1" "A"] "M1" "SW1").
  vm_compute. reflexivity.
Defined.

(** ** Command messages *)

Lemma on_message_input_only (idx : index) (h : headers) (msg : message)
    (st : state) :
  contains "output" (destination h) = false ->
  on_message idx h msg st = handle_input idx h msg st.
Proof.
  intros H. unfold on_message, bind, handle_output. rewrite H.
  destruct (handle_input idx h msg st) as [st1 [[] | e]]; reflexivity.
Qed.

Lemma accepts_tracked (idx : index) (item : diff_item) :
  accepts idx item = true <-> tracked idx item.
Proof.
  unfold accepts, tracked.
  rewrite andb_true_iff, PyDictFacts.mem_spec, tracked_attributes_spec.
  reflexivity.
Qed.

Lemma process_item_skips (idx : index) (h : headers) (item : diff_item)
    (st : state) :
  accepts idx item = false -> process_item idx h item st = (st, Ret tt).
Proof.
  unfold accepts, process_item. intros H.
  destruct (PyDict.mem _ _); [| reflexivity].
  destruct (in_list _ _); [discriminate | reflexivity].
Qed.

Lemma process_item_no_phases (idx : index) (h : headers) (item : diff_item)
    (st : state) :
  tracked idx item ->
  eq_phases_map idx !! item_object item = None ->
  process_item idx h item st
  = (fst (new_dict st), Raise (KeyError (item_object item))).
Proof.
  intros T P. destruct (tracked_tests _ _ T) as [H1 H2].
  destruct (PyDictFacts.get_is_Some _ _ (proj1 T)) as [e He].
  unfold process_item. rewrite H1, H2.
  unfold bind, new_dict, subscript, ret, raise. simpl. now rewrite He, P.
Qed.

Lemma for_each_returns (idx : index) (h : headers) (items : list diff_item) :
  forall st,
    (exists st', for_each items (process_item idx h) st = (st', Ret tt)) <->
    (forall it, it ∈ items -> tracked idx it ->
       is_Some (eq_phases_map idx !! item_object it)).
Proof.
  induction items as [| it items IH]; intros st.
  - split; [| now eexists]. intros _ it H. now apply elem_of_nil in H.
  - rewrite for_each_cons. split.
    + intros [st' H] x Hx Tx.
      destruct (process_item idx h it st) as [st1 [[] | e]] eqn:P;
        [| discriminate].
      apply elem_of_cons in Hx as [-> | Hx].
      * destruct (process_item_tracked _ _ _ _ _ Tx P) as (? & p & _ & Hp & _).
        now exists p.
      * apply (proj1 (IH st1)); eauto.
    + intros H. destruct (accepts idx it) eqn:A.
      * apply accepts_tracked in A.
        destruct (H it (list_elem_of_here _ _) A) as [p Hp].
        destruct (process_item_accepts idx h it st p A Hp) as [st1 P].
        rewrite P. apply IH. intros x Hx. apply H.
        now apply list_elem_of_further.
      * rewrite process_item_skips by assumption. apply IH.
        intros x Hx. apply H. now apply list_elem_of_further.
Qed.

Lemma for_each_app {B} (l1 l2 : list B) (body : B -> M unit) (st : state) :
  for_each (l1 ++ l2) body st =
  match for_each l1 body st with
  | (st1, Ret _) => for_each l2 body st1
  | (st1, Raise e) => (st1, Raise e)
  end.
Proof.
  revert st. induction l1 as [| x l1 IH]; intros st; [reflexivity |].
  simpl app. rewrite !for_each_cons.
  destruct (body x st) as [st1 [[] | e]]; [apply IH | reflexivity].
Qed.

Lemma for_each_steps_ret (idx : index) (h : headers) (l : list diff_item) :
  forall st st',
    for_each l (process_item idx h) st = (st', Ret tt) ->
    st' = steps idx (map (Item h) l) st.
Proof.
  induction l as [| it l IH]; intros st st' H.
  - simpl in *. unfold ret in H. congruence.
  - rewrite for_each_cons in H. unfold steps. simpl.
    destruct (process_item idx h it st) as [st1 [[] | e]]; [| discriminate].
    simpl. now apply IH.
Qed.

(** A batch with a tracked item whose equipment has no recorded phases has a
    first such item. *)
Lemma first_without_phases (idx : index) (items : list diff_item) :
  (exists it, it ∈ items /\ tracked idx it /\
              eq_phases_map idx !! item_object it = None) ->
  exists pre item rest,
    items = pre ++ item :: rest /\
    tracked idx item /\
    eq_phases_map idx !! item_object item = None /\
    forall it, it ∈ pre -> tracked idx it ->
      is_Some (eq_phases_map idx !! item_object it).
Proof.
  induction items as [| it0 items IH]; intros (it & Hin & T & P).
  - now apply elem_of_nil in Hin.
  - destruct (accepts idx it0) eqn:A.
    + apply accepts_tracked in A.
      destruct (eq_phases_map idx !! item_object it0) as [p |] eqn:P0.
      * apply elem_of_cons in Hin as [-> | Hin]; [congruence |].
        destruct IH as (pre & item & rest & E & T' & P' & F); [eauto |].
        exists (it0 :: pre), item, rest. split_and!; auto.
        -- simpl. now rewrite E.
        -- intros x Hx Tx. apply elem_of_cons in Hx as [-> | Hx];
             [rewrite P0; eauto | now apply F].
      * exists [], it0, items. split_and!; auto.
        intros x Hx. now apply elem_of_nil in Hx.
    + assert (N : ~ tracked idx it0).
      { intros T0. apply accepts_tracked in T0. congruence. }
      apply elem_of_cons in Hin as [-> | Hin]; [contradiction |].
      destruct IH as (pre & item & rest & E & T' & P' & F); [eauto |].
      exists (it0 :: pre), item, rest. split_and!; auto.
      * simpl. now rewrite E.
      * intros x Hx Tx. apply elem_of_cons in Hx as [-> | Hx];
          [contradiction | now apply F].
Qed.

(** The command loop stops at that item, with the items before it done. *)
Lemma batch_faults (idx : index) (h : headers) (pre rest : list diff_item)
    (item : diff_item) (st : state) :
  (forall it, it ∈ pre -> tracked idx it ->
     is_Some (eq_phases_map idx !! item_object it)) ->
  tracked idx item ->
  eq_phases_map idx !! item_object item = None ->
  for_each (pre ++ item :: rest) (process_item idx h) st
  = (fst (new_dict (steps idx (map (Item h) pre) st)),
     Raise (KeyError (item_object item))).
Proof.
  intros F T P. rewrite for_each_app.
  destruct (proj2 (for_each_returns idx h pre st) F) as [st1 H1].
  rewrite H1, for_each_cons.
  rewrite (for_each_steps_ret _ _ _ _ _ H1).
  now rewrite process_item_no_phases.
Qed.

(** X5: on an index built by [_main], a batch that holds a command passing
    both tests of lines 117-118 for an equipment with no kept measurement
    makes [on_message] raise [KeyError] for the first such command, at line
    124: the items before it have been processed, that command and the rest
    of the batch are not stored, no snapshot is written and nothing is
    sent. *)
Theorem command_without_measurement (capacitors switches : list equipment)
    (capacitor_meas switch_meas : list measurement)
    (h : headers) (msg : message) (items : list diff_item) (st : state) :
  let idx := build_index capacitors switches capacitor_meas switch_meas in
  contains "input" (destination h) = true ->
  msg_input msg = Some items ->
  (exists it,
      it ∈ items /\ tracked idx it /\
      associated (equipment_dict idx) (measurement_dict idx) (item_object it)
      = []) ->
  exists pre item rest,
    items = pre ++ item :: rest /\
    tracked idx item /\
    associated (equipment_dict idx) (measurement_dict idx) (item_object item)
    = [] /\
    (forall it, it ∈ pre -> tracked idx it ->
       associated (equipment_dict idx) (measurement_dict idx) (item_object it)
       <> []) /\
    snd (on_message idx h msg st) = Raise (KeyError (item_object item)) /\
    input_map (fst (on_message idx h msg st))
    = input_map (steps idx (map (Item h) pre) st) /\
    measurement_value (fst (on_message idx h msg st)) = measurement_value st /\
    sent (fst (on_message idx h msg st)) = sent st.
Proof.
  intros idx Hin Hmsg Hex.
  assert (P : forall e,
             eq_phases_map idx !! e
             = recorded (associated (equipment_dict idx)
                           (measurement_dict idx) e)).
  { intros e. subst idx. simpl. apply build_maps_phases.
    apply add_equipment_NoDup, add_equipment_NoDup. apply NoDup_nil_2. }
  clearbody idx.
  destruct (first_without_phases idx items) as (pre & item & rest & E & T & N & F).
  { destruct Hex as (it & I & T & A). exists it. split_and!; auto.
    now rewrite P, A. }
  exists pre, item, rest.
  pose proof (batch_faults idx h pre rest item st F T N) as B.
  pose proof (handle_input_frame idx h msg st) as (F1 & F2 & _).
  assert (HI : handle_input idx h msg st
               = (fst (new_dict (steps idx (map (Item h) pre) st)),
                  Raise (KeyError (item_object item)))).
  { unfold handle_input, bind, subscript. rewrite Hin, Hmsg. simpl.
    now rewrite E. }
  assert (OM : on_message idx h msg st
               = (fst (new_dict (steps idx (map (Item h) pre) st)),
                  Raise (KeyError (item_object item)))).
  { unfold on_message, bind. now rewrite HI. }
  rewrite HI in F1, F2. rewrite OM. simpl in *.
  split_and!; auto.
  - rewrite P in N. now destruct (associated _ _ (item_object item)).
  - intros it I Tt A. destruct (F it I Tt) as [p Hp].
    rewrite P, A in Hp. discriminate.
Qed.

Lemma command_without_measurement_witness :
  exists pre item rest,
    [Example.open_SW1; Bare.switch_CAP1] = pre ++ item :: rest /\
    snd (on_message Bare.idx Example.input_headers
           (snd (Example.command_event [Example.open_SW1; Bare.switch_CAP1]))
           init)
    = Raise (KeyError (item_object item)).
Proof.
  destruct (command_without_measurement [Bare.CAP1] [Example.SW1] []
              [Example.mk_pos "M1" "SW1" "A"] Example.input_headers
              (snd (Example.command_event
                      [Example.open_SW1; Bare.switch_CAP1]))
              [Example.open_SW1; Bare.switch_CAP1] init)
    as (pre & item & rest & E & _ & _ & _ & R & _).
  - reflexivity.
  - reflexivity.
  - exists Bare.switch_CAP1. split_and!.
    + apply list_elem_of_further, list_elem_of_here.
    + split; [| left; reflexivity]. vm_compute. apply list_elem_of_here.
    + vm_compute. reflexivity.
  - exists pre, item, rest. split; [exact E | exact R].
Defined.

Lemma for_each_last (idx : index) (h : headers) (items : list diff_item) :
  forall st st',
    for_each items (process_item idx h) st = (st', Ret tt) ->
    forall e,
      match last_command idx items e with
      | Some it =>
          exists c,
            input_map st' !! e = Some c /\
            equipment_mrid c = e /\
            value c = (if py_eq (item_value it) (VInt 1)
                       then "Open" else "Close") /\
            created_by c = GOSS_SUBJECT h /\
            from_directory idx c
      | None => input_map st' !! e = input_map st !! e
      end.
Proof.
  induction items as [| it items IH]; intros st st' H e.
  - simpl in *. unfold ret in H. congruence.
  - rewrite for_each_cons in H.
    destruct (process_item idx h it st) as [st1 [[] | x]] eqn:P; [| discriminate].
    specialize (IH st1 st' H e). simpl.
    destruct (last_command idx items e) as [y |]; [exact IH |].
    destruct (accepts idx it) eqn:A; simpl.
    + apply accepts_tracked in A.
      destruct (process_item_tracked _ _ _ _ _ A P) as (r & p & Hr & Hp & ->).
      destruct (String.eqb_spec (item_object it) e) as [<- | Ne].
      * rewrite IH. simpl. rewrite lookup_insert_eq. eexists.
        split; [reflexivity |]. simpl. split_and!; auto.
        unfold from_directory. simpl. split_and!; eauto.
        destruct (py_eq _ _); auto.
      * rewrite IH. simpl. now rewrite lookup_insert_ne.
    + rewrite process_item_skips in P by assumption. congruence.
Qed.

(** X7: after a message for the input topic only that is handled to the end,
    the entry of each equipment is the command built from the last item of
    the batch that passes the two tests and targets it: its value is the
    normalised value of that item, its author the message's [GOSS_SUBJECT],
    its name and phases those of the index; an equipment that no such item
    targets keeps the entry it had, or none. *)
Theorem command_batch_result (idx : index) (h : headers) (msg : message)
    (items : list diff_item) (st st' : state) (e : string) :
  contains "input" (destination h) = true ->
  contains "output" (destination h) = false ->
  msg_input msg = Some items ->
  on_message idx h msg st = (st', Ret tt) ->
  match last_command idx items e with
  | Some it =>
      exists c,
        input_map st' !! e = Some c /\
        equipment_mrid c = e /\
        value c = (if py_eq (item_value it) (VInt 1) then "Open" else "Close") /\
        created_by c = GOSS_SUBJECT h /\
        from_directory idx c
  | None => input_map st' !! e = input_map st !! e
  end.
Proof.
  intros Hin Hout Hmsg H. rewrite on_message_input_only in H by assumption.
  unfold handle_input, bind, subscript in H. rewrite Hin, Hmsg in H. simpl in H.
  now apply for_each_last.
Qed.

Lemma command_batch_result_witness :
  exists c,
    input_map
      (deliver Example.idx init
         (Example.command_event
            [Example.open_SW1;
             {| item_object := "SW1"; item_attribute := "Switch.open";
                item_value := VInt 0 |};
             {| item_object := "SW1"; item_attribute := "Switch.normalOpen";
                item_value := VInt 1 |}])) !! "SW1" = Some c /\
    value c = "Close".
Proof.
  pose proof (command_batch_result Example.idx Example.input_headers
                (snd (Example.command_event
                        [Example.open_SW1;
                         {| item_object := "SW1"; item_attribute := "Switch.open";
                            item_value := VInt 0 |};
                         {| item_object := "SW1";
                            item_attribute := "Switch.normalOpen";
                            item_value := VInt 1 |}]))
                _ init _ "SW1" eq_refl eq_refl eq_refl eq_refl) as H.
  vm_compute in H. destruct H as (c & H1 & _ & H2 & _).
  exists c. split; [exact H1 | exact H2].
Defined.

(** X8: a message for the input topic only never sends anything and never
    touches a snapshot, whether it is handled to the end or ends in a
    fault. *)
Theorem command_message_frame (idx : index) (h : headers) (msg : message)
    (st : state) :
  contains "output" (destination h) = false ->
  measurement_value (fst (on_message idx h msg st)) = measurement_value st /\
  sent (fst (on_message idx h msg st)) = sent st.
Proof.
  intros Hout. rewrite on_message_input_only by assumption.
  destruct (handle_input_frame idx h msg st) as (F1 & F2 & _). auto.
Qed.

Lemma command_message_frame_witness :
  sent (deliver Example.idx init (Example.command_event [Example.open_SW1]))
  = [].
Proof.
  apply (command_message_frame Example.idx Example.input_headers
           (snd (Example.command_event [Example.open_SW1])) init).
  reflexivity.
Defined.

(** ** Output messages *)

Lemma on_message_output_only (idx : index) (h : headers) (msg : message)
    (st : state) :
  contains "input" (destination h) = false ->
  on_message idx h msg st = bind (handle_output idx h msg) publish st.
Proof.
  intros H. unfold on_message, handle_input. rewrite H. reflexivity.
Qed.

Lemma publish_returns (al : list alarm) (st : state) :
  publish al st =
  (match al with [] => st | _ :: _ => with_sent al st end, Ret tt).
Proof. now destruct al. Qed.

(** After a pass through the body for [m] that returns, [m] no longer counts
    as changed and the other measurements are as before. *)
Lemma changed_after (idx : index) (msg : message) (al al1 : list alarm)
    (m : string) (st st1 : state) :
  meas_step idx msg al m st st1 (Ret al1) ->
  forall m',
    changed st1 msg m' = if bool_decide (m' = m) then false else changed st msg m'.
Proof.
  intros H m'. unfold changed. case_bool_decide as E.
  - subst m'. inversion H; subst; simpl;
      rewrite ?lookup_insert_eq;
      repeat match goal with
             | A : ?x = _ |- context [?x] => rewrite A
             end;
      rewrite ?py_eq_refl; reflexivity.
  - inversion H; subst; simpl; rewrite ?lookup_insert_ne by congruence;
      reflexivity.
Qed.

Lemma scan_returns (idx : index) (msg : message) (l : list string) :
  forall al st,
    (exists st' al',
        for_fold l (process_measurement idx msg) al st = (st', Ret al')) <->
    (forall m, m ∈ l ->
       is_Some (reported msg m) /\
       (changed st msg m = true -> is_Some (meas_eq_map idx !! m))).
Proof.
  induction l as [| k l IH]; intros al st.
  - split; [| now do 2 eexists]. intros _ m H. now apply elem_of_nil in H.
  - rewrite for_fold_cons.
    pose proof (process_measurement_spec idx msg al k st) as P.
    destruct (process_measurement idx msg al k st) as [st1 o1]. simpl in P.
    split.
    + intros (st' & al' & H). destruct o1 as [al1 | x]; [| discriminate].
      pose proof (changed_after _ _ _ _ _ _ _ P) as CA.
      assert (Hk : is_Some (reported msg k) /\
                   (changed st msg k = true -> is_Some (meas_eq_map idx !! k))).
      { unfold changed. inversion P; subst;
          repeat match goal with
                 | A : ?x = _ |- context [?x] => rewrite A
                 end; split; eauto; simpl; discriminate. }
      intros m Hm. apply elem_of_cons in Hm as [-> | Hm]; [exact Hk |].
      destruct (decide (m = k)) as [-> | Ne]; [exact Hk |].
      destruct (proj1 (IH al1 st1) (ex_intro _ st' (ex_intro _ al' H)) m Hm)
        as [R C].
      split; [exact R |]. intros Hc. apply C. rewrite CA.
      now rewrite bool_decide_eq_false_2.
    + intros H. destruct (H k (list_elem_of_here _ _)) as [[v R] C].
      assert (exists al1, o1 = Ret al1) as [al1 ->].
      { inversion P; subst; eauto; try congruence.
        exfalso. assert (Hc : changed st msg k = true).
        { unfold changed. now rewrite H1, H0, H2. }
        destruct (C Hc) as [e He]. congruence. }
      apply IH. intros m Hm.
      destruct (H m (list_elem_of_further _ _ _ Hm)) as [R' C'].
      split; [exact R' |]. rewrite (changed_after _ _ _ _ _ _ _ P).
      case_bool_decide; [discriminate | exact C'].
Qed.

(** X9: a message for the output topic is not handled to the end when some
    key of [measurement_dict] is not reported by it, or has a snapshot that
    the reported value differs from and no entry in [meas_eq_map]: the call
    ends in a [KeyError] and sends nothing. *)
Theorem output_message_faults (idx : index) (h : headers) (msg : message)
    (st : state) (m : string) :
  contains "output" (destination h) = true ->
  m ∈ PyDict.keys (measurement_dict idx) ->
  reported msg m = None \/
  (changed st msg m = true /\ meas_eq_map idx !! m = None) ->
  (exists key, snd (on_message idx h msg st) = Raise (KeyError key)) /\
  sent (fst (on_message idx h msg st)) = sent st.
Proof.
  intros Hout Hm Hbad.
  assert (R : exists key, snd (on_message idx h msg st) = Raise (KeyError key)).
  { unfold on_message, bind.
    pose proof (handle_input_frame idx h msg st) as (F & _).
    destruct (handle_input idx h msg st) as [st1 [[] | [key]]]; simpl in F;
      [| simpl; eauto].
    unfold handle_output. rewrite Hout.
    destruct (for_fold _ _ _ st1) as [st2 [al2 | [key]]] eqn:L; [| simpl; eauto].
    exfalso.
    destruct (proj1 (scan_returns idx msg _ [] st1)
                (ex_intro _ st2 (ex_intro _ al2 L)) m Hm) as [[v Rv] C].
    destruct Hbad as [N | [Hc N]]; [congruence |].
    assert (Hc1 : changed st1 msg m = true).
    { unfold changed in *. now rewrite F. }
    destruct (C Hc1) as [e He]. congruence. }
  split; [exact R |]. destruct R as [key R].
  now apply (fault_sends_nothing idx h msg st (KeyError key)).
Qed.

Lemma output_message_faults_witness :
  exists key,
    snd (on_message Unmapped.idx (fst Unmapped.change) (snd Unmapped.change)
           Unmapped.before) = Raise (KeyError key).
Proof.
  apply (output_message_faults Unmapped.idx (fst Unmapped.change)
           (snd Unmapped.change) Unmapped.before "M2").
  - reflexivity.
  - vm_compute. apply list_elem_of_further, list_elem_of_here.
  - right. split; vm_compute; reflexivity.
Defined.

Lemma triggered_cons (idx : index) (msg : message) (al al1 : list alarm)
    (m : string) (st st1 : state) :
  meas_step idx msg al m st st1 (Ret al1) ->
  forall l e,
    triggered idx st msg (m :: l) e =
    (changed st msg m && bool_decide (meas_eq_map idx !! m = Some e))
    || triggered idx st1 msg l e.
Proof.
  intros H l e. unfold triggered. simpl.
  set (hd := changed st msg m && bool_decide (meas_eq_map idx !! m = Some e)).
  induction l as [| x l IH]; [reflexivity |]. simpl.
  rewrite (changed_after _ _ _ _ _ _ _ H x).
  destruct (decide (x = m)) as [-> | E].
  - rewrite (bool_decide_eq_true_2 (m = m)) by reflexivity. fold hd. simpl.
    destruct hd; simpl in *; [reflexivity | exact IH].
  - rewrite (bool_decide_eq_false_2 (x = m)) by assumption.
    destruct hd; simpl in *; [reflexivity |]. now rewrite IH.
Qed.

Lemma scan_result (idx : index) (msg : message) (l : list string) :
  forall al st st' al',
    for_fold l (process_measurement idx msg) al st = (st', Ret al') ->
    (forall e,
        input_map st' !! e =
        if triggered idx st msg l e then None else input_map st !! e) /\
    exists new,
      al' = al ++ new /\ forall a, a ∈ new <-> resolved idx st msg l a.
Proof.
  induction l as [| k l IH]; intros al st st' al' H.
  - simpl in H. unfold ret in H. injection H as <- <-.
    split; [reflexivity |]. exists []. split; [now rewrite app_nil_r |].
    intros a. split; [intros F; now apply elem_of_nil in F |].
    intros (e & c & o & _ & F & _). discriminate.
  - rewrite for_fold_cons in H.
    destruct (process_measurement idx msg al k st) as [st1 o1] eqn:P.
    apply process_measurement_inv in P.
    destruct o1 as [al1 | x]; [| discriminate].
    destruct (IH _ _ _ _ H) as (T1 & new1 & E1 & M1).
    pose proof (triggered_cons _ _ _ _ _ _ _ P l) as TC.
    assert (Q : (changed st msg k = false /\ input_map st1 = input_map st /\
                 al1 = al) \/
                (exists e0, changed st msg k = true /\
                   meas_eq_map idx !! k = Some e0 /\
                   input_map st !! e0 = None /\
                   input_map st1 = input_map st /\ al1 = al) \/
                (exists e0 c0 o, changed st msg k = true /\
                   meas_eq_map idx !! k = Some e0 /\
                   input_map st !! e0 = Some c0 /\
                   msg_message msg = Some o /\
                   input_map st1 = delete e0 (input_map st) /\
                   al1 = al ++ [{| alarm_command := c0;
                                   timestamp := out_timestamp o |}])).
    { unfold changed. inversion P; subst; simpl;
        repeat match goal with
               | A : ?x = _ |- context [?x] => rewrite A
               end; simpl.
      - left. auto.
      - left. auto.
      - right. left. eauto 10.
      - right. right. eauto 12. }
    destruct Q as [(C & I & ->) | [(e0 & C & Q & I0 & I & ->)
                                  | (e0 & c0 & o & C & Q & I0 & O & I & ->)]].
    + split.
      * intros e. rewrite TC, C, T1, I. reflexivity.
      * exists new1. split; [exact E1 |]. intros a. rewrite M1.
        unfold resolved. setoid_rewrite TC. rewrite C, I. reflexivity.
    + split.
      * intros e. rewrite TC, C, T1, I, Q. simpl. case_bool_decide as D.
        -- injection D as <-. simpl. rewrite I0.
           now destruct (triggered idx st1 msg l e0).
        -- reflexivity.
      * exists new1. split; [exact E1 |]. intros a. rewrite M1.
        unfold resolved. setoid_rewrite TC. rewrite C, I, Q. simpl.
        split; intros (e & c & o & H1 & H2 & H3 & H4).
        -- exists e, c, o. split_and!; auto. rewrite H2. apply orb_true_r.
        -- exists e, c, o. split_and!; auto. case_bool_decide as D.
           ++ injection D as <-. congruence.
           ++ exact H2.
    + split.
      * intros e. rewrite TC, C, T1, I, Q. simpl. case_bool_decide as D.
        -- injection D as <-. simpl. rewrite lookup_delete_eq.
           now destruct (triggered idx st1 msg l e0).
        -- simpl. rewrite lookup_delete_ne; [reflexivity |]. congruence.
      * exists ({| alarm_command := c0; timestamp := out_timestamp o |} :: new1).
        split; [rewrite E1, <- app_assoc; reflexivity |].
        intros a. rewrite elem_of_cons, M1.
        unfold resolved. setoid_rewrite TC. rewrite C, I, Q. simpl. split.
        -- intros [-> | (e & c & o' & H1 & H2 & H3 & H4)].
           ++ exists e0, c0, o. split_and!; auto.
              now rewrite bool_decide_eq_true_2.
           ++ apply lookup_delete_Some in H1 as [N H1].
              exists e, c, o'. split_and!; auto. rewrite H2. apply orb_true_r.
        -- intros (e & c & o' & H1 & H2 & H3 & H4).
           destruct (decide (e0 = e)) as [<- | N].
           ++ left. subst a. congruence.
           ++ right. exists e, c, o'.
              rewrite lookup_delete_ne by assumption.
              rewrite bool_decide_eq_false_2 in H2 by congruence.
              split_and!; auto.
Qed.

(** X10: after a message for the output topic only that is handled to the
    end, an equipment has lost its pending command exactly when a tracked
    measurement that [meas_eq_map] sends to it has changed, every other entry
    of [input_map] is as before, and the alarms sent in this call, in one
    batch or none when there are none, are exactly the commands that were
    pending for such equipment, each stamped with the message's timestamp. *)
Theorem output_message_result (idx : index) (h : headers) (msg : message)
    (st st' : state) :
  contains "input" (destination h) = false ->
  contains "output" (destination h) = true ->
  on_message idx h msg st = (st', Ret tt) ->
  (forall e,
      input_map st' !! e =
      if triggered idx st msg (PyDict.keys (measurement_dict idx)) e
      then None else input_map st !! e) /\
  exists batch,
    sent st' = sent st ++ match batch with [] => [] | _ :: _ => [batch] end /\
    forall a,
      a ∈ batch <->
      resolved idx st msg (PyDict.keys (measurement_dict idx)) a.
Proof.
  intros Hin Hout H. rewrite on_message_output_only in H by assumption.
  unfold bind, handle_output in H. rewrite Hout in H.
  pose proof (scan_frame idx msg (PyDict.keys (measurement_dict idx)) [] st)
    as [F _].
  destruct (for_fold _ _ _ st) as [st2 [al2 | e]] eqn:L; [| discriminate].
  destruct (scan_result _ _ _ _ _ _ _ L) as (T & new & E & M).
  simpl in E, F. subst al2. rewrite publish_returns in H. injection H as <-.
  split.
  - intros e. rewrite <- T. now destruct new.
  - exists new. split; [| exact M].
    destruct new; simpl; rewrite ?app_nil_r; congruence.
Qed.

Lemma output_message_result_witness :
  let st := run Example.idx
              [Example.command_event [Example.open_SW1];
               Example.output_event 999 [("M1", VInt 0)]] init in
  let ev := Example.output_event 1000 [("M1", VInt 1)] in
  input_map (deliver Example.idx st ev) !! "SW1" = None.
Proof.
  intros st ev.
  destruct (output_message_result Example.idx (fst ev) (snd ev) st
              (deliver Example.idx st ev) eq_refl eq_refl eq_refl) as [T _].
  rewrite T. vm_compute. reflexivity.
Defined.

Lemma scan_quiet (idx : index) (msg : message) (l : list string) :
  forall al st,
    (forall m, m ∈ l -> changed st msg m = false) ->
    input_map (fst (for_fold l (process_measurement idx msg) al st))
    = input_map st /\
    (forall st' al',
        for_fold l (process_measurement idx msg) al st = (st', Ret al') ->
        al' = al).
Proof.
  induction l as [| k l IH]; intros al st Q.
  - simpl. split; [reflexivity |]. unfold ret. congruence.
  - rewrite for_fold_cons.
    pose proof (process_measurement_spec idx msg al k st) as P.
    destruct (process_measurement idx msg al k st) as [st1 o1]. simpl in P.
    pose proof (Q k (list_elem_of_here _ _)) as Qk. unfold changed in Qk.
    assert (E : input_map st1 = input_map st /\
                forall al1, o1 = Ret al1 -> al1 = al).
    { inversion P; subst; simpl; try (split; [reflexivity | congruence]);
        rewrite H, H0, H1 in Qk; discriminate. }
    destruct E as [E1 E2]. destruct o1 as [al1 | x]; simpl.
    + rewrite (E2 al1 eq_refl) in *.
      destruct (IH al st1) as [I1 I2].
      { intros m Hm. rewrite (changed_after _ _ _ _ _ _ _ P).
        case_bool_decide; [reflexivity |].
        apply Q. now apply list_elem_of_further. }
      split; [congruence | exact I2].
    + split; [exact E1 | discriminate].
Qed.

(** X11: a message for the output topic only in which no tracked measurement
    differs from its snapshot, a measurement without a snapshot counting as
    not differing, resolves no pending command and sends nothing, whether it
    is handled to the end or not. *)
Theorem quiet_output (idx : index) (h : headers) (msg : message) (st : state) :
  contains "input" (destination h) = false ->
  contains "output" (destination h) = true ->
  (forall m, m ∈ PyDict.keys (measurement_dict idx) ->
     changed st msg m = false) ->
  input_map (fst (on_message idx h msg st)) = input_map st /\
  sent (fst (on_message idx h msg st)) = sent st.
Proof.
  intros Hin Hout Q. rewrite on_message_output_only by assumption.
  unfold bind, handle_output. rewrite Hout.
  destruct (scan_quiet idx msg _ [] st Q) as [I A].
  pose proof (scan_frame idx msg (PyDict.keys (measurement_dict idx)) [] st)
    as [F _].
  destruct (for_fold _ _ _ st) as [st1 [al1 | e]]; simpl in *; [| auto].
  rewrite (A st1 al1 eq_refl). simpl. auto.
Qed.

Lemma quiet_output_witness :
  let st := deliver Example.idx init
              (Example.command_event [Example.open_SW1]) in
  let ev := Example.output_event 999 [("M1", VInt 1)] in
  input_map (deliver Example.idx st ev) = input_map st.
Proof.
  intros st ev.
  apply (quiet_output Example.idx (fst ev) (snd ev) st);
    [reflexivity | reflexivity |].
  intros m H. vm_compute in H. apply list_elem_of_singleton in H. subst m.
  vm_compute. reflexivity.
Defined.

Lemma next_snapshot_step (idx : index) (msg : message) (al al1 : list alarm)
    (k : string) (st st1 : state) :
  meas_step idx msg al k st st1 (Ret al1) ->
  measurement_value st1 !! k = next_snapshot st msg k /\
  next_snapshot st1 msg k = measurement_value st1 !! k /\
  (forall m, m <> k -> next_snapshot st1 msg m = next_snapshot st msg m).
Proof.
  intros P.
  assert (A : measurement_value st1 !! k = next_snapshot st msg k /\
              is_Some (measurement_value st1 !! k)).
  { unfold next_snapshot, changed.
    inversion P; subst; simpl; rewrite ?lookup_insert_eq;
      repeat match goal with
             | A : ?x = _ |- context [?x] => rewrite A
             end; simpl; eauto. }
  destruct A as [A [x S]]. split_and!.
  - exact A.
  - unfold next_snapshot. rewrite S, (changed_after _ _ _ _ _ _ _ P).
    now rewrite bool_decide_eq_true_2.
  - intros m N. unfold next_snapshot.
    rewrite (meas_step_other _ _ _ _ _ _ _ _ P N),
      (changed_after _ _ _ _ _ _ _ P).
    now rewrite bool_decide_eq_false_2.
Qed.

Lemma scan_snapshots (idx : index) (msg : message) (l : list string) :
  forall al st st' al',
    for_fold l (process_measurement idx msg) al st = (st', Ret al') ->
    forall m,
      measurement_value st' !! m =
      if bool_decide (m ∈ l) then next_snapshot st msg m
      else measurement_value st !! m.
Proof.
  induction l as [| k l IH]; intros al st st' al' H m.
  - simpl in H. unfold ret in H. injection H as <- <-.
    rewrite bool_decide_eq_false_2; [reflexivity | apply not_elem_of_nil].
  - rewrite for_fold_cons in H.
    destruct (process_measurement idx msg al k st) as [st1 o1] eqn:P.
    apply process_measurement_inv in P.
    destruct o1 as [al1 | x]; [| discriminate].
    destruct (next_snapshot_step _ _ _ _ _ _ _ P) as (A & B & C).
    rewrite (IH _ _ _ _ H m).
    destruct (decide (m = k)) as [-> | N].
    + rewrite (bool_decide_eq_true_2 (k ∈ k :: l)) by apply list_elem_of_here.
      case_bool_decide; congruence.
    + rewrite (C m N), (meas_step_other _ _ _ _ _ _ _ _ P N).
      destruct (decide (m ∈ l)) as [I | I].
      * rewrite !bool_decide_eq_true_2; auto. now apply list_elem_of_further.
      * rewrite !bool_decide_eq_false_2; auto.
        rewrite not_elem_of_cons. auto.
Qed.

(** X12: after a message for the output topic that is handled to the end,
    the snapshot of a key of [measurement_dict] is the reported value if it
    had no snapshot or its value has changed, and its old snapshot otherwise
    (also when the reported value is equal without being the same, as [True]
    and [1]); the snapshot of any other id is as it was. *)
Theorem output_message_snapshots (idx : index) (h : headers) (msg : message)
    (st st' : state) (m : string) :
  contains "output" (destination h) = true ->
  on_message idx h msg st = (st', Ret tt) ->
  measurement_value st' !! m =
  if bool_decide (m ∈ PyDict.keys (measurement_dict idx))
  then next_snapshot st msg m
  else measurement_value st !! m.
Proof.
  intros Hout H. unfold on_message, bind in H.
  pose proof (handle_input_frame idx h msg st) as (F & _).
  destruct (handle_input idx h msg st) as [st1 [[] | e]]; [| discriminate].
  simpl in F. unfold handle_output in H. rewrite Hout in H.
  destruct (for_fold _ _ _ st1) as [st2 [al2 | e]] eqn:L; [| discriminate].
  rewrite publish_returns in H. injection H as <-.
  assert (E : measurement_value
                (match al2 with [] => st2 | _ :: _ => with_sent al2 st2 end)
              = measurement_value st2) by now destruct al2.
  rewrite E, (scan_snapshots _ _ _ _ _ _ _ L m).
  unfold next_snapshot, changed. now rewrite F.
Qed.

Lemma output_message_snapshots_witness :
  let st := run Example.idx [Example.output_event 999 [("M1", VInt 1)]] init in
  let ev := Example.output_event 1000 [("M1", VBool true)] in
  measurement_value (deliver Example.idx st ev) !! "M1" = Some (VInt 1).
Proof.
  intros st ev.
  rewrite (output_message_snapshots Example.idx (fst ev) (snd ev) st
             (deliver Example.idx st ev) "M1" eq_refl eq_refl).
  vm_compute. reflexivity.
Defined.

Lemma process_measurement_agree (idx : index) (msg msg' : message)
    (o o' : sim_output) (al : list alarm) (m : string) (st : state) :
  msg_message msg = Some o -> msg_message msg' = Some o' ->
  out_timestamp o = out_timestamp o' ->
  out_measurements o !! m = out_measurements o' !! m ->
  process_measurement idx msg al m st = process_measurement idx msg' al m st.
Proof.
  intros O O' T V.
  unfold process_measurement, event_value, event_timestamp, bind, subscript,
    gets, ret, raise.
  rewrite O, O', V, T. reflexivity.
Qed.

(** X13: what an output message says about measurement ids that are not keys
    of [measurement_dict] has no effect: two messages with the same
    differences, the same timestamp and the same reported values for the
    tracked keys leave the same state and end the same way. *)
Theorem untracked_ignored (idx : index) (h : headers) (msg msg' : message)
    (o o' : sim_output) (st : state) :
  msg_input msg = msg_input msg' ->
  msg_message msg = Some o -> msg_message msg' = Some o' ->
  out_timestamp o = out_timestamp o' ->
  (forall m, m ∈ PyDict.keys (measurement_dict idx) ->
     out_measurements o !! m = out_measurements o' !! m) ->
  on_message idx h msg st = on_message idx h msg' st.
Proof.
  intros I O O' T V. unfold on_message, bind, handle_input. rewrite I.
  match goal with
  | |- context [match ?c st with _ => _ end] =>
      destruct (c st) as [st1 [[] | e]]; [| reflexivity]
  end.
  unfold handle_output. destruct (contains "output" _); [| reflexivity].
  assert (E : forall l, (forall m, m ∈ l ->
                out_measurements o !! m = out_measurements o' !! m) ->
              forall al s,
                for_fold l (process_measurement idx msg) al s
                = for_fold l (process_measurement idx msg') al s).
  { induction l as [| k l IH]; intros W al s; [reflexivity |].
    rewrite !for_fold_cons.
    rewrite (process_measurement_agree idx msg msg' o o' al k s O O' T
               (W k (list_elem_of_here _ _))).
    destruct (process_measurement idx msg' al k s) as [s1 [al1 | e]];
      [| reflexivity].
    apply IH. intros m Hm. apply W. now apply list_elem_of_further. }
  now rewrite (E _ V).
Qed.

Lemma untracked_ignored_witness :
  let st := run Example.idx [Example.output_event 999 [("M1", VInt 0)]] init in
  on_message Example.idx Example.output_headers
    (snd (Example.output_event 1000 [("M1", VInt 1); ("M7", VInt 5)])) st
  = on_message Example.idx Example.output_headers
      (snd (Example.output_event 1000 [("M1", VInt 1)])) st.
Proof.
  intros st.
  apply (untracked_ignored Example.idx Example.output_headers
           (snd (Example.output_event 1000 [("M1", VInt 1); ("M7", VInt 5)]))
           (snd (Example.output_event 1000 [("M1", VInt 1)]))
           {| out_timestamp := 1000;
              out_measurements :=
                list_to_map [("M1", VInt 1); ("M7", VInt 5)] |}
           {| out_timestamp := 1000;
              out_measurements := list_to_map [("M1", VInt 1)] |} st);
    try reflexivity.
  intros m H. vm_compute in H. apply list_elem_of_singleton in H. subst m.
  vm_compute. reflexivity.
Defined.

(** ** What every run keeps *)

Lemma orderly_init (idx : index) : orderly idx init.
Proof.
  split; simpl.
  - intros k c H. now rewrite lookup_empty in H.
  - intros b H. now apply elem_of_nil in H.
Qed.

Lemma keyed_item (idx : index) (h : headers) (item : diff_item) (st : state) :
  (forall k c, input_map st !! k = Some c ->
     equipment_mrid c = k /\ from_directory idx c) ->
  forall k c,
    input_map (fst (process_item idx h item st)) !! k = Some c ->
    equipment_mrid c = k /\ from_directory idx c.
Proof.
  intros K. unfold process_item.
  destruct (PyDict.mem _ _); [| exact K].
  destruct (in_list _ _); [| exact K].
  unfold bind, new_dict, subscript, ret, raise, set_input_map, modify. simpl.
  destruct (PyDict.get _ _) as [e |] eqn:G; [| exact K].
  destruct (eq_phases_map idx !! _) as [p |] eqn:P; [| exact K].
  simpl. intros k c H. apply lookup_insert_Some in H as [[<- <-] | [_ H]].
  - split; [reflexivity |]. unfold from_directory. simpl.
    split_and!; eauto. destruct (py_eq _ _); auto.
  - now apply K.
Qed.

Lemma orderly_input (idx : index) (h : headers) (msg : message) (st : state) :
  orderly idx st -> orderly idx (fst (handle_input idx h msg st)).
Proof.
  intros [K B]. split.
  - clear B. unfold handle_input. destruct (contains _ _); [| exact K].
    unfold bind, subscript. destruct (msg_input msg) as [items |]; [| exact K].
    simpl. revert st K. induction items as [| it items IH]; intros st K;
      [exact K |].
    rewrite for_each_cons. pose proof (keyed_item idx h it st K) as K1.
    destruct (process_item idx h it st) as [st1 [[] | e]]; simpl in *;
      [now apply IH | exact K1].
  - destruct (handle_input_frame idx h msg st) as (_ & F & _). now rewrite F.
Qed.

Lemma scanning_step (idx : index) (msg : message) (al : list alarm)
    (m : string) (st st' : state) (o : outcome (list alarm)) :
  meas_step idx msg al m st st' o ->
  scanning idx msg st al -> scanning idx msg st' (local_after o al).
Proof.
  intros H S.
  destruct H; simpl; try exact S;
    try (destruct S as [K N T]; split; simpl; auto; fail).
  destruct S as [K N T]. destruct (K _ _ H3) as [Kc Fc].
  split; simpl.
  - intros k c0 Q. apply lookup_delete_Some in Q as [_ Q]. auto.
  - rewrite map_app. simpl. apply NoDup_app. split_and!; [exact N | |].
    + intros x Hx Hx'. apply list_elem_of_singleton in Hx'. subst x.
      apply list_elem_of_fmap in Hx as (a & Ea & Ha).
      destruct (T a Ha) as [Ta _]. unfold alarm_mrid in *. simpl in Ea.
      congruence.
    + apply NoDup_singleton.
  - intros a Ha. apply elem_of_app in Ha as [Ha | Ha].
    + destruct (T a Ha) as (T1 & T2 & T3). split_and!; auto.
      destruct (decide (alarm_mrid a = e)) as [-> | Ne].
      * apply lookup_delete_eq.
      * now rewrite lookup_delete_ne by congruence.
    + apply list_elem_of_singleton in Ha. subst a. unfold alarm_mrid. simpl.
      split_and!; eauto. rewrite Kc. apply lookup_delete_eq.
Qed.

Lemma scanning_scan (idx : index) (msg : message) (l : list string) :
  forall al st,
    scanning idx msg st al ->
    match for_fold l (process_measurement idx msg) al st with
    | (st', Ret al') => scanning idx msg st' al'
    | (st', Raise _) => scanning idx msg st' []
    end.
Proof.
  induction l as [| k l IH]; intros al st S; [exact S |].
  rewrite for_fold_cons.
  destruct (process_measurement idx msg al k st) as [st1 o1] eqn:P.
  apply process_measurement_inv in P.
  pose proof (scanning_step _ _ _ _ _ _ _ P S) as S1.
  destruct o1 as [al1 | e]; simpl in S1; [now apply IH |].
  destruct S1 as [K _ _]. split; [exact K | apply NoDup_nil_2 |].
  intros a Ha. now apply elem_of_nil in Ha.
Qed.

Lemma orderly_on_message (idx : index) (h : headers) (msg : message)
    (st : state) :
  orderly idx st -> orderly idx (fst (on_message idx h msg st)).
Proof.
  intros O. unfold on_message, bind.
  pose proof (orderly_input idx h msg st O) as O1.
  destruct (handle_input idx h msg st) as [st1 [[] | e]]; simpl in O1;
    [| exact O1].
  unfold handle_output. destruct (contains "output" _); [| exact O1].
  destruct O1 as [K B].
  assert (S : scanning idx msg st1 []).
  { split; [exact K | apply NoDup_nil_2 |].
    intros a Ha. now apply elem_of_nil in Ha. }
  pose proof (scanning_scan idx msg (PyDict.keys (measurement_dict idx)) [] st1 S)
    as S2.
  pose proof (scan_frame idx msg (PyDict.keys (measurement_dict idx)) [] st1)
    as [F _].
  destruct (for_fold _ _ _ st1) as [st2 [al2 | e]]; simpl in F.
  - rewrite publish_returns. simpl. destruct S2 as [K2 N2 T2].
    destruct al2 as [| a0 al2]; split; simpl; auto.
    + intros b Hb. apply B. congruence.
    + intros b Hb. rewrite F in Hb. apply elem_of_app in Hb as [Hb | Hb];
        [now apply B |].
      apply list_elem_of_singleton in Hb. subst b. split; [discriminate |].
      split_and!; [exact N2 | intros a Ha; now apply T2 |].
      destruct (T2 a0 (list_elem_of_here _ _)) as (_ & _ & o0 & O0 & E0).
      exists (out_timestamp o0). intros a Ha.
      destruct (T2 a Ha) as (_ & _ & o & Oa & Ea). congruence.
  - simpl. destruct S2 as [K2 _ _]. split; [exact K2 |].
    intros b Hb. apply B. congruence.
Qed.

Lemma orderly_run (idx : index) (evs : list event) :
  forall st, orderly idx st -> orderly idx (run idx evs st).
Proof.
  unfold run. induction evs as [| ev evs IH]; intros st O; [exact O |].
  simpl. apply IH. unfold deliver. now apply orderly_on_message.
Qed.

(** X14: over any stream of messages no empty batch is ever sent, and the
    alarms of one batch all carry the same timestamp. *)
Theorem batches_stamped (idx : index) (evs : list event) :
  Forall
    (fun b => b <> [] /\ exists ts, Forall (fun a => timestamp a = ts) b)
    (sent (run idx evs init)).
Proof.
  destruct (orderly_run idx evs init (orderly_init idx)) as [_ B].
  apply Forall_forall. intros b Hb.
  destruct (B b Hb) as (N & _ & _ & ts & T).
  split; [exact N |]. exists ts. now apply Forall_forall.
Qed.

(** X15: over any stream of messages, no batch holds two alarms for the same
    equipment. *)
Theorem batches_distinct (idx : index) (evs : list event) :
  Forall (fun b => NoDup (map alarm_mrid b)) (sent (run idx evs init)).
Proof.
  destruct (orderly_run idx evs init (orderly_init idx)) as [_ B].
  apply Forall_forall. intros b Hb. now destruct (B b Hb) as (_ & N & _).
Qed.

(** X16: over any stream of messages, every pending command is stored under
    its own [equipment_mrid], and every pending command and every alarm sent
    names an equipment of [equipment_dict], with that equipment's name and
    recorded phases, and has value ["Open"] or ["Close"]. *)
Theorem commands_from_directory (idx : index) (evs : list event) :
  map_Forall
    (fun k c => equipment_mrid c = k /\ from_directory idx c)
    (input_map (run idx evs init)) /\
  Forall (fun a => from_directory idx (alarm_command a))
    (published (run idx evs init)).
Proof.
  destruct (orderly_run idx evs init (orderly_init idx)) as [K B]. split.
  - intros k c H. now apply K.
  - apply Forall_forall. intros a Ha. unfold published in Ha.
    apply list_elem_of_In, in_concat in Ha as (b & Hb & Ha).
    apply list_elem_of_In in Hb, Ha.
    destruct (B b Hb) as (_ & _ & D & _). now apply D.
Qed.

Lemma scan_no_pending (idx : index) (msg : message) (l : list string) :
  forall al st,
    input_map st = ∅ ->
    input_map (fst (for_fold l (process_measurement idx msg) al st)) = ∅ /\
    (forall st' al',
        for_fold l (process_measurement idx msg) al st = (st', Ret al') ->
        al' = al).
Proof.
  induction l as [| k l IH]; intros al st E.
  - simpl. split; [exact E |]. unfold ret. congruence.
  - rewrite for_fold_cons.
    pose proof (process_measurement_spec idx msg al k st) as P.
    destruct (process_measurement idx msg al k st) as [st1 o1]. simpl in P.
    assert (Q : input_map st1 = ∅ /\ forall al1, o1 = Ret al1 -> al1 = al).
    { inversion P; subst; simpl; try (split; [exact E | congruence]).
      rewrite E, lookup_empty in H3. discriminate. }
    destruct Q as [Q1 Q2]. destruct o1 as [al1 | x]; simpl.
    + rewrite (Q2 al1 eq_refl). now apply IH.
    + split; [exact Q1 | discriminate].
Qed.

(** X17: as long as no message is for the input topic, no command is pending
    and nothing is sent, whatever the measurements do. *)
Theorem no_command_no_alarm (idx : index) (evs : list event) :
  Forall (fun ev => contains "input" (destination (fst ev)) = false) evs ->
  input_map (run idx evs init) = ∅ /\ sent (run idx evs init) = [].
Proof.
  assert (G : forall st,
             Forall (fun ev => contains "input" (destination (fst ev)) = false)
               evs ->
             input_map st = ∅ ->
             input_map (run idx evs st) = ∅ /\ sent (run idx evs st) = sent st).
  { unfold run. induction evs as [| [h msg] evs IH]; intros st F E; [auto |].
    apply Forall_cons in F as [F1 F2]. simpl in F1. simpl.
    assert (A : input_map (deliver idx st (h, msg)) = ∅ /\
                sent (deliver idx st (h, msg)) = sent st).
    { unfold deliver. simpl. rewrite on_message_output_only by assumption.
      unfold bind, handle_output. destruct (contains "output" _).
      - destruct (scan_no_pending idx msg
                    (PyDict.keys (measurement_dict idx)) [] st E) as [I A].
        pose proof (scan_frame idx msg (PyDict.keys (measurement_dict idx))
                      [] st) as [S _].
        destruct (for_fold _ _ _ st) as [st1 [al1 | e]]; simpl in *; [| auto].
        rewrite (A st1 al1 eq_refl). simpl. auto.
      - simpl. auto. }
    destruct A as [A1 A2]. destruct (IH _ F2 A1) as [I1 I2].
    split; congruence. }
  intros F. now apply G.
Qed.

Lemma no_command_no_alarm_witness :
  sent (run Example.idx
          [Example.output_event 999 [("M1", VInt 0)];
           Example.output_event 1000 [("M1", VInt 1)];
           Example.output_event 1001 [("M1", VInt 0)]] init) = [].
Proof.
  apply (no_command_no_alarm Example.idx
           [Example.output_event 999 [("M1", VInt 0)];
            Example.output_event 1000 [("M1", VInt 1)];
            Example.output_event 1001 [("M1", VInt 0)]]).
  repeat constructor.
Defined.

(** ** Snapshots *)

Lemma meas_step_snapshots (idx : index) (msg : message) (al : list alarm)
    (m : string) (st st' : state) (o : outcome (list alarm)) :
  meas_step idx msg al m st st' o ->
  forall x,
    (is_Some (measurement_value st !! x) ->
     is_Some (measurement_value st' !! x)) /\
    (is_Some (measurement_value st' !! x) ->
     is_Some (measurement_value st !! x) \/ x = m).
Proof.
  intros H x.
  destruct H; simpl; try (split; auto; fail);
    (destruct (decide (x = m)) as [-> | N];
     [rewrite lookup_insert_eq; split; eauto
     | rewrite lookup_insert_ne by congruence; split; auto]).
Qed.

Lemma scan_snapshot_keys (idx : index) (msg : message) (l : list string) :
  forall al st x,
    (is_Some (measurement_value st !! x) ->
     is_Some (measurement_value
                (fst (for_fold l (process_measurement idx msg) al st)) !! x)) /\
    (is_Some (measurement_value
                (fst (for_fold l (process_measurement idx msg) al st)) !! x) ->
     is_Some (measurement_value st !! x) \/ x ∈ l).
Proof.
  induction l as [| k l IH]; intros al st x; [simpl; auto |].
  rewrite for_fold_cons.
  destruct (process_measurement idx msg al k st) as [st1 o1] eqn:P.
  apply process_measurement_inv in P.
  destruct (meas_step_snapshots _ _ _ _ _ _ _ P x) as [A B].
  destruct o1 as [al1 | e]; simpl.
  - destruct (IH al1 st1 x) as [A1 B1]. split; [auto |].
    intros H. destruct (B1 H) as [H1 | H1].
    + destruct (B H1) as [? | ->]; [auto | right; apply list_elem_of_here].
    + right. now apply list_elem_of_further.
  - split; [exact A |]. intros H.
    destruct (B H) as [? | ->]; [auto | right; apply list_elem_of_here].
Qed.

Lemma on_message_snapshot_keys (idx : index) (h : headers) (msg : message)
    (st : state) (x : string) :
  (is_Some (measurement_value st !! x) ->
   is_Some (measurement_value (fst (on_message idx h msg st)) !! x)) /\
  (is_Some (measurement_value (fst (on_message idx h msg st)) !! x) ->
   is_Some (measurement_value st !! x) \/
   x ∈ PyDict.keys (measurement_dict idx)).
Proof.
  unfold on_message, bind.
  pose proof (handle_input_frame idx h msg st) as (F & _).
  destruct (handle_input idx h msg st) as [st1 [[] | e]]; simpl in F;
    [| simpl; rewrite F; auto].
  rewrite <- F. unfold handle_output. destruct (contains "output" _).
  - pose proof (scan_snapshot_keys idx msg
                  (PyDict.keys (measurement_dict idx)) [] st1 x) as S.
    destruct (for_fold _ _ _ st1) as [st2 [al2 | e]]; simpl in *; [| exact S].
    rewrite publish_returns. simpl. now destruct al2.
  - simpl. auto.
Qed.

(** X18: a snapshot, once taken, is never removed by later messages, and
    only keys of [measurement_dict] ever get one. *)
Theorem snapshots_kept (idx : index) (evs later : list event) (m : string) :
  is_Some (measurement_value (run idx evs init) !! m) ->
  m ∈ PyDict.keys (measurement_dict idx) /\
  is_Some (measurement_value (run idx (evs ++ later) init) !! m).
Proof.
  assert (D : forall l st,
             (is_Some (measurement_value st !! m) ->
              m ∈ PyDict.keys (measurement_dict idx)) ->
             is_Some (measurement_value (run idx l st) !! m) ->
             m ∈ PyDict.keys (measurement_dict idx)).
  { unfold run. induction l as [| [h msg] l IH]; intros st H; [exact H |].
    simpl. apply IH. unfold deliver. simpl. intros S.
    destruct (on_message_snapshot_keys idx h msg st m) as [_ B].
    destruct (B S); auto. }
  assert (K : forall l st,
             is_Some (measurement_value st !! m) ->
             is_Some (measurement_value (run idx l st) !! m)).
  { unfold run. induction l as [| [h msg] l IH]; intros st H; [exact H |].
    simpl. apply IH. unfold deliver. simpl.
    now apply on_message_snapshot_keys. }
  intros H. split.
  - apply (D evs init); [| exact H]. simpl. rewrite lookup_empty.
    intros [v Hv]. discriminate.
  - unfold run. rewrite fold_left_app. now apply K.
Qed.

Lemma snapshots_kept_witness :
  is_Some
    (measurement_value
       (run Example.idx
          ([Example.output_event 999 [("M1", VInt 0)]]
           ++ [Example.command_event [Example.open_SW1];
               Example.output_event 1000 [("M9", VInt 1)]]) init) !! "M1").
Proof.
  apply (snapshots_kept Example.idx
           [Example.output_event 999 [("M1", VInt 0)]]
           [Example.command_event [Example.open_SW1];
            Example.output_event 1000 [("M9", VInt 1)]] "M1").
  vm_compute. eauto.
Defined.

(** ** The routing tests *)

Lemma append_cons (a : ascii) (s t : string) :
  String.append (String a s) t = String a (String.append s t).
Proof. reflexivity. Qed.

Lemma prefix_spec (s1 s2 : string) :
  String.prefix s1 s2 = true <-> exists post, s2 = String.append s1 post.
Proof.
  revert s2. induction s1 as [| a s1 IH]; intros s2.
  - split; [intros _; now exists s2 | intros _; now destruct s2].
  - destruct s2 as [| b s2]; simpl.
    + split; [discriminate | intros [post H]; discriminate].
    + destruct (ascii_dec a b) as [<- | N].
      * rewrite IH. split; intros [post H]; exists post.
        -- rewrite append_cons. now f_equal.
        -- rewrite append_cons in H. now injection H.
      * split; [discriminate |]. intros [post H].
        rewrite append_cons in H. injection H as E _. congruence.
Qed.

(** X19: the tests of lines 115 and 129 are substring tests: [contains]
    holds exactly when the destination is some prefix, then the needle, then
    some suffix; so a destination that names both topics passes both. *)
Theorem contains_spec (needle hay : string) :
  contains needle hay = true <->
  exists pre post, hay = String.append pre (String.append needle post).
Proof.
  induction hay as [| a hay IH].
  - change (contains needle EmptyString)
      with (String.prefix needle EmptyString || false).
    rewrite orb_false_r, prefix_spec. split.
    + intros [post H]. now exists EmptyString, post.
    + intros (pre & post & H). destruct pre as [| b pre].
      * now exists post.
      * rewrite append_cons in H. discriminate.
  - change (contains needle (String a hay))
      with (String.prefix needle (String a hay) || contains needle hay).
    rewrite orb_true_iff, prefix_spec, IH. split.
    + intros [[post H] | (pre & post & H)].
      * now exists EmptyString, post.
      * exists (String a pre), post. rewrite append_cons. now f_equal.
    + intros (pre & post & H). destruct pre as [| b pre].
      * left. now exists post.
      * right. rewrite append_cons in H. injection H as _ H.
        now exists pre, post.
Qed.

(** ** Composing and repeating messages *)

(** X20: a batch of differences split over two messages for the input topic
    with the same headers has the same effect as the whole batch in one
    message, provided the first part is handled to the end. *)
Theorem command_batch_split (idx : index) (h : headers)
    (l1 l2 : list diff_item) (o : option sim_output) (st st1 : state) :
  contains "input" (destination h) = true ->
  contains "output" (destination h) = false ->
  on_message idx h {| msg_input := Some l1; msg_message := o |} st
  = (st1, Ret tt) ->
  on_message idx h {| msg_input := Some (l1 ++ l2); msg_message := o |} st
  = on_message idx h {| msg_input := Some l2; msg_message := o |} st1.
Proof.
  intros Hin Hout H. rewrite !on_message_input_only in * by assumption.
  unfold handle_input, bind, subscript in *. rewrite Hin in *. simpl in *.
  rewrite for_each_app. now rewrite H.
Qed.

Lemma command_batch_split_witness :
  on_message Example.idx Example.input_headers
    {| msg_input :=
         Some ([Example.open_SW1]
               ++ [{| item_object := "SW1"; item_attribute := "Switch.open";
                      item_value := VInt 0 |}]);
       msg_message := None |} init
  = on_message Example.idx Example.input_headers
      {| msg_input :=
           Some [{| item_object := "SW1"; item_attribute := "Switch.open";
                    item_value := VInt 0 |}];
         msg_message := None |}
      (deliver Example.idx init (Example.command_event [Example.open_SW1])).
Proof.
  apply (command_batch_split Example.idx Example.input_headers
           [Example.open_SW1]
           [{| item_object := "SW1"; item_attribute := "Switch.open";
               item_value := VInt 0 |}]
           None init
           (deliver Example.idx init (Example.command_event [Example.open_SW1])));
    reflexivity.
Defined.

(** The snapshots after a scan that returns agree with the message, as
    long as every reported value is equal to itself. *)
Lemma scan_agrees (idx : index) (msg : message) (m : string) (l : list string) :
  (forall k v, reported msg k = Some v -> py_eq v v = true) ->
  m ∈ l ->
  forall (al al' : list alarm) (st st' : state),
    for_fold l (process_measurement idx msg) al st = (st', Ret al') ->
    exists v x,
      reported msg m = Some v /\
      measurement_value st' !! m = Some x /\
      py_eq x v = true.
Proof.
  intros Self. induction l as [| k l IH]; intros Hin al al' st st' H.
  - now apply elem_of_nil in Hin.
  - rewrite for_fold_cons in H.
    destruct (process_measurement idx msg al k st) as [st1 o1] eqn:P.
    apply process_measurement_inv in P.
    destruct o1 as [al1 | e]; [| discriminate].
    destruct (decide (m = k)) as [-> | N].
    + assert (exists v x, reported msg k = Some v /\
                measurement_value st1 !! k = Some x /\ py_eq x v = true)
        as (v & x & R & S1 & E).
      { inversion P; subst; simpl.
        - exists v, v. rewrite lookup_insert_eq. eauto.
        - exists v, old. eauto.
        - exists v, v. rewrite lookup_insert_eq. eauto.
        - exists v, v. rewrite lookup_insert_eq. eauto. }
      exists v, x. split_and!; auto.
      pose proof (scan_keeps idx msg k x v l R E al1 st1 S1) as K.
      now rewrite H in K.
    + apply elem_of_cons in Hin as [? | Hin]; [contradiction |].
      exact (IH Hin _ _ _ _ H).
Qed.

(** X21: an output-only message whose reported values are each equal to
    themselves (which a NaN is not), delivered a second time right after it
    was handled to the end, returns without changing the state and without
    sending anything. *)
Theorem output_redelivery (idx : index) (h : headers) (msg : message)
    (st st' : state) :
  contains "input" (destination h) = false ->
  contains "output" (destination h) = true ->
  (forall k v, reported msg k = Some v -> py_eq v v = true) ->
  on_message idx h msg st = (st', Ret tt) ->
  on_message idx h msg st' = (st', Ret tt).
Proof.
  intros Hin Hout Self H. rewrite on_message_output_only in * by assumption.
  unfold bind in *.
  assert (R : handle_output idx h msg st' = (st', Ret [])).
  { apply repeated_output. intros m Hm.
    unfold handle_output in H. rewrite Hout in H.
    destruct (for_fold _ _ _ st) as [st2 [al2 | e]] eqn:L; [| discriminate].
    destruct (scan_agrees idx msg m _ Self Hm _ _ _ _ L) as (v & x & Rv & S & E).
    rewrite publish_returns in H. injection H as <-.
    exists x, v. split_and!; auto. now destruct al2. }
  now rewrite R.
Qed.

Lemma output_redelivery_witness :
  let st := run Example.idx
              [Example.command_event [Example.open_SW1];
               Example.output_event 999 [("M1", VInt 0)]] init in
  let ev := Example.output_event 1000 [("M1", VInt 1)] in
  on_message Example.idx (fst ev) (snd ev) (deliver Example.idx st ev)
  = (deliver Example.idx st ev, Ret tt).
Proof.
  intros st ev.
  apply (output_redelivery Example.idx (fst ev) (snd ev) st
           (deliver Example.idx st ev)); try reflexivity.
  intros k v H.
  destruct (decide (k = "M1")) as [-> | N].
  - vm_compute in H. injection H as <-. reflexivity.
  - unfold reported, ev in H. simpl in H.
    rewrite lookup_insert_ne in H by congruence.
    rewrite lookup_empty in H. discriminate.
Defined.

(** ** A command that replaces a pending one *)

Lemma consistent_for_each (gone : list nat) (idx : index) (h : headers)
    (l : list diff_item) :
  forall st,
    consistent gone st [] ->
    consistent gone (fst (for_each l (process_item idx h) st)) [].
Proof.
  induction l as [| it l IH]; intros st C; [exact C |].
  rewrite for_each_cons.
  pose proof (consistent_item gone idx h it st [] C) as C1.
  destruct (process_item idx h it st) as [st1 [[] | e]]; simpl in *;
    [now apply IH | exact C1].
Qed.

(** Once a batch has stored a command for [e], the instance that was pending
    for [e] before is out of the table for good. *)
Lemma batch_overwrites (idx : index) (h : headers) (e : string) (c1 : command)
    (l : list diff_item) :
  forall st st',
    consistent [] st [] ->
    input_map st !! e = Some c1 ->
    for_each l (process_item idx h) st = (st', Ret tt) ->
    (exists it, last_command idx l e = Some it) ->
    consistent [cmd_ref c1] st' [].
Proof.
  induction l as [| it0 l IH]; intros st st' C P H [it L].
  - discriminate.
  - rewrite for_each_cons in H.
    pose proof (consistent_item [] idx h it0 st [] C) as C1.
    destruct (process_item idx h it0 st) as [sa [[] | x]] eqn:Q;
      [| discriminate].
    simpl in C1.
    destruct (accepts idx it0 && String.eqb (item_object it0) e) eqn:A.
    + apply andb_true_iff in A as [A1 A2].
      apply accepts_tracked in A1. apply String.eqb_eq in A2.
      destruct (process_item_tracked _ _ _ _ _ A1 Q) as (r & p & _ & _ & ->).
      rewrite A2 in *.
      match type of H with
      | context [with_input _ ?c _] =>
          pose proof (consistent_overwrite st e c1 c C P eq_refl) as C2
      end.
      pose proof (consistent_for_each _ idx h l _ C2) as C3.
      now rewrite H in C3.
    + assert (Pa : input_map sa !! e = Some c1).
      { destruct (accepts idx it0) eqn:A1.
        - simpl in A. apply accepts_tracked in A1.
          destruct (process_item_tracked _ _ _ _ _ A1 Q) as (r & p & _ & _ & ->).
          simpl. rewrite lookup_insert_ne; [exact P |].
          intros E. rewrite E, String.eqb_refl in A. discriminate.
        - rewrite process_item_skips in Q by assumption. congruence. }
      apply (IH sa st' C1 Pa H). simpl in L. rewrite A in L.
      destruct (last_command idx l e); eauto; discriminate.
Qed.

(** X22: when a message for the input topic only is handled to the end and,
    at some point of its batch (its start included), a command is pending
    for an equipment that a later item of the batch passing the two tests
    targets, then after the message the table holds for that equipment the
    command built from the last such item, a different instance; no entry
    of the table is the earlier instance, and no alarm sent before or after
    refers to it.  The earlier command may come from the same batch or from
    an earlier message. *)
Theorem overwrite_by_message (idx : index) (before later : list event)
    (h : headers) (l1 l2 : list diff_item) (o : option sim_output)
    (e : string) (c1 : command) (it : diff_item) :
  let st := run idx before init in
  let st1 :=
    fst (on_message idx h {| msg_input := Some l1; msg_message := o |} st) in
  let st' :=
    fst (on_message idx h
           {| msg_input := Some (l1 ++ l2); msg_message := o |} st) in
  contains "input" (destination h) = true ->
  contains "output" (destination h) = false ->
  snd (on_message idx h {| msg_input := Some (l1 ++ l2); msg_message := o |} st)
  = Ret tt ->
  input_map st1 !! e = Some c1 ->
  last_command idx l2 e = Some it ->
  exists c2,
    input_map st' !! e = Some c2 /\
    value c2 = (if py_eq (item_value it) (VInt 1) then "Open" else "Close") /\
    created_by c2 = GOSS_SUBJECT h /\
    cmd_ref c2 <> cmd_ref c1 /\
    (forall k c, input_map st' !! k = Some c -> cmd_ref c <> cmd_ref c1) /\
    cmd_ref c1 ∉ map alarm_ref (published (run idx later st')).
Proof.
  intros st st1 st' Hin Hout R P L. subst st1 st'.
  rewrite !on_message_input_only in * by assumption.
  unfold handle_input, bind, subscript in *. rewrite Hin in *. simpl in *.
  rewrite for_each_app in *.
  assert (C : consistent [] st []).
  { apply consistent_run, consistent_init. }
  pose proof (consistent_for_each [] idx h l1 st C) as C1.
  destruct (for_each l1 (process_item idx h) st) as [sa [[] | x]];
    [| discriminate].
  simpl in P, C1.
  destruct (for_each l2 (process_item idx h) sa) as [sb [[] | x]] eqn:H2;
    [| discriminate].
  simpl.
  pose proof (batch_overwrites idx h e c1 l2 sa sb C1 P H2
                (ex_intro _ it L)) as C3.
  pose proof (for_each_last idx h l2 sa sb H2 e) as F. rewrite L in F.
  destruct F as (c2 & T & _ & V & B & _).
  pose proof (consistent_run _ idx later _ C3) as [_ _ N _ _].
  destruct C3 as [_ _ _ _ D3].
  assert (D : forall k c, input_map sb !! k = Some c -> cmd_ref c <> cmd_ref c1).
  { intros k c Hk. apply (D3 (cmd_ref c1) k c); [| exact Hk].
    apply list_elem_of_here. }
  exists c2. split_and!; auto.
  - now apply (D e c2).
  - unfold refs_out in N. simpl in N. rewrite app_nil_r in N.
    now apply NoDup_cons in N as [N _].
Qed.

Lemma overwrite_by_message_witness :
  exists c2,
    input_map
      (deliver Example.idx init
         (Example.command_event
            ([Example.open_SW1]
             ++ [{| item_object := "SW1"; item_attribute := "Switch.open";
                    item_value := VInt 0 |}]))) !! "SW1" = Some c2 /\
    value c2 = "Close" /\
    0 ∉ map alarm_ref
          (published
             (run Example.idx
                [Example.output_event 999 [("M1", VInt 0)];
                 Example.output_event 1000 [("M1", VInt 1)]]
                (deliver Example.idx init
                   (Example.command_event
                      ([Example.open_SW1]
                       ++ [{| item_object := "SW1";
                              item_attribute := "Switch.open";
                              item_value := VInt 0 |}]))))).
Proof.
  destruct (overwrite_by_message Example.idx []
              [Example.output_event 999 [("M1", VInt 0)];
               Example.output_event 1000 [("M1", VInt 1)]]
              Example.input_headers [Example.open_SW1]
              [{| item_object := "SW1"; item_attribute := "Switch.open";
                  item_value := VInt 0 |}]
              None "SW1"
              {| cmd_ref := 0; equipment_mrid := "SW1"; value := "Open";
                 created_by := "sim-control"; equipment_name := "sw_1";
                 phases := "A" |}
              {| item_object := "SW1"; item_attribute := "Switch.open";
                 item_value := VInt 0 |})
    as (c2 & T & V & _ & _ & _ & N).
  - reflexivity.
  - reflexivity.
  - vm_compute. reflexivity.
  - vm_compute. reflexivity.
  - vm_compute. reflexivity.
  - exists c2. split_and!; [exact T | exact V | exact N].
Defined.
